(** * drfexts.serializers.fields: a shallow embedding and its properties

    The module [drfexts/serializers/fields.py] defines six serializer
    fields on top of Django REST framework.  Each field is embedded below
    as a record holding the attributes the Python object carries, with
    its methods as functions over that record.  Methods that mutate the
    instance return the new instance next to their result; methods that
    can raise return an [outcome].

    Collaborators that live in the framework (the queryset, the base
    class methods reached through [super()], the model-field lookup
    table) are section variables: every statement holds for whatever
    they do.

    The module is read as it runs on Python 3.8 and 3.9, the versions
    on which both [functools.cached_property] and [collections.Mapping],
    which it uses, exist. *)

From stdpp Require Import base option list strings pretty gmap.

Local Open Scope Z_scope.
Local Open Scope string_scope.

(** ** Python values *)

(** The scalar values a field sees on either side of a conversion. *)
Inductive pyval :=
  | PyNone
  | PyBool (b : bool)
  | PyInt (n : Z)
  | PyStr (s : string).

Global Instance pyval_eq_dec : EqDecision pyval.
Proof. solve_decision. Defined.

(** [str(v)] *)
Definition py_str (v : pyval) : string :=
  match v with
  | PyNone => "None"
  | PyBool true => "True"
  | PyBool false => "False"
  | PyInt n => pretty n
  | PyStr s => s
  end.

(** Python's [==] on scalars, which is also the equality a [dict] uses
    on its keys: [True == 1] and [False == 0], and a string equals
    nothing but the same string. *)
Definition py_key (v : pyval) : pyval :=
  match v with
  | PyBool b => PyInt (if b then 1 else 0)
  | _ => v
  end.

Definition py_eqb (a b : pyval) : bool := bool_decide (py_key a = py_key b).

(** Truthiness of an optional attribute name: [None] and the empty
    string are false. *)
Definition truthy (o : option string) : bool :=
  match o with
  | Some s => negb (String.eqb s EmptyString)
  | None => false
  end.

(** ** Exceptions *)

Inductive pyexn :=
  | TypeError
  | ValueError
  | KeyError
  | AttributeError
  | AssertionError
  | FieldDoesNotExist
  | OtherError (name : string).

(** What a call does: return, raise the framework's [ValidationError]
    (through [self.fail(code, ...)], carrying the error code and the
    formatted message), or raise anything else. *)
Inductive outcome (A : Type) :=
  | Ret (a : A)
  | Invalid (code msg : string)
  | Raise (e : pyexn).
Arguments Ret {A} a.
Arguments Invalid {A} code msg.
Arguments Raise {A} e.

Global Instance outcome_ret : MRet outcome := λ A a, Ret a.
Global Instance outcome_bind : MBind outcome := λ A B k m,
  match m with
  | Ret a => k a
  | Invalid c s => Invalid c s
  | Raise e => Raise e
  end.

(** [s] occurs inside [t]. *)
Definition contains (t s : string) : Prop := ∃ pre post, t = pre +:+ s +:+ post.

(** ** Dictionaries *)

(** A Python [dict] (or [OrderedDict]): the items in insertion order,
    keys compared with the key type's equality.  Assigning to a key
    that is present replaces its value in place and keeps the stored
    key; assigning to a new key appends. *)
Section odict.
Context {K V : Type} (eqb : K → K → bool).

Fixpoint od_get (d : list (K * V)) (k : K) : option V :=
  match d with
  | [] => None
  | (k', v) :: d' => if eqb k' k then Some v else od_get d' k
  end.

Fixpoint od_set (d : list (K * V)) (k : K) (v : V) : list (K * V) :=
  match d with
  | [] => [(k, v)]
  | (k', v') :: d' =>
      if eqb k' k then (k', v) :: d' else (k', v') :: od_set d' k v
  end.

(** No two stored keys are equal: what every [dict] satisfies. *)
Fixpoint od_wf (d : list (K * V)) : Prop :=
  match d with
  | [] => True
  | (k, _) :: d' => od_get d' k = None ∧ od_wf d'
  end.
End odict.

(** A dict keyed by scalars. *)
Definition pydict := list (pyval * pyval).
Definition dict_get : pydict → pyval → option pyval := od_get py_eqb.
Definition dict_set : pydict → pyval → pyval → pydict := od_set py_eqb.

(** What a field receives on the inbound side: a scalar, a list, or a
    mapping (a JSON object). *)
Inductive pydata :=
  | DVal (v : pyval)
  | DList (l : list pyval)
  | DDict (items : pydict).

(** A dict with string keys, as the mapping a client sends back. *)
Definition data_of_dict (d : list (string * pyval)) : pydata :=
  DDict ((λ kv, (PyStr kv.1, kv.2)) <$> d).

Definition data_of_map (m : gmap string pyval) : pydata :=
  data_of_dict (map_to_list m).

(** ** SequenceField *)

Module SequenceField.

(** The instance: [start], [step] and the attribute [_curval], which is
    absent until the first call. *)
Record t := mk { start : Z; step : Z; _curval : option Z }.

(** [SequenceField(start, step)] *)
Definition init (start step : Z) : t := mk start step None.

(** [_incr]: reads [_curval] (default [start]), stores the successor,
    returns what it read. *)
Definition _incr (self : t) : Z * t :=
  let curval := default (start self) (_curval self) in
  (curval, mk (start self) (step self) (Some (curval + step self))).

Definition to_representation (self : t) (value : pyval) : Z * t := _incr self.

(** The serializer calls [to_representation] once per record: the
    outputs for a list of inputs, on one instance. *)
Fixpoint outputs (self : t) (values : list pyval) : list Z :=
  match values with
  | [] => []
  | v :: vs =>
      let '(out, self') := to_representation self v in
      out :: outputs self' vs
  end.

(** The instance after those calls. *)
Fixpoint after (self : t) (values : list pyval) : t :=
  match values with
  | [] => self
  | v :: vs => after (to_representation self v).2 vs
  end.

End SequenceField.

(** ** DisplayChoiceField *)

Module DisplayChoiceField.

(** The attributes [_set_choices] stores.  [choice_strings_to_values]
    has string keys only, so it is a finite map over strings;
    [values_to_choice_strings] is keyed by the raw values. *)
Record t := mk {
  _choices : pydict;
  choice_strings_to_values : gmap string pyval;
  values_to_choice_strings : pydict
}.

(** The framework's [to_choices_dict] followed by
    [flatten_choices_dict], on a configuration list of (value, label)
    pairs: the pairs are assigned into a dict one after the other. *)
Definition flatten_choices (choices : list (pyval * pyval)) : pydict :=
  foldl (λ d c, dict_set d c.1 c.2) [] choices.

(** [_set_choices].  [self.choices] reads [_choices] back.  The dict
    comprehension assigns [str(label) -> value] for the items in
    order; [dict(self.choices)] is a copy. *)
Definition _set_choices (choices : list (pyval * pyval)) : t :=
  let flat := flatten_choices choices in
  mk flat
     (foldl (λ m c, <[py_str c.2 := c.1]> m) ∅ flat)
     flat.

(** [value in (empty string, None)] *)
Definition is_blank (value : pyval) : bool :=
  match value with
  | PyNone => true
  | PyStr s => String.eqb s EmptyString
  | _ => false
  end.

(** [to_representation]: [dict.get(str(value), value)] on the dict
    keyed by raw values. *)
Definition to_representation (self : t) (value : pyval) : pyval :=
  if is_blank value then value
  else default value (dict_get (values_to_choice_strings self) (PyStr (py_str value))).

(** Modelled from the spec: the inbound conversion, which
    [DisplayChoiceField] inherits from the framework's [ChoiceField]
    and which is not in this module.  It "maps a submitted label
    string back to its underlying raw value, rejecting inputs not
    present in the configured choice set", through the label-string
    to raw-value mapping whose keys are "stringified labels".  The
    text of the rejection is the base class's; whatever else the base
    class does before the lookup (such as accepting a blank input when
    blanks are allowed) is outside the spec's words and not modelled. *)
Definition to_internal_value (self : t) (data : pyval) : outcome pyval :=
  match choice_strings_to_values self !! py_str data with
  | Some value => Ret value
  | None => Invalid "invalid_choice" "Not a valid choice."
  end.

End DisplayChoiceField.

(** ** MultiSlugRelatedField *)

(** What [queryset.get] does on keyword arguments. *)
Inductive lookup (obj : Type) :=
  | Found (o : obj)
  | ObjectDoesNotExist
  | LookupRaises (e : pyexn).
Arguments Found {obj} o.
Arguments ObjectDoesNotExist {obj}.
Arguments LookupRaises {obj} e.

Module MultiSlugRelatedField.
Section field.
(** The model instances and the lookup source [self.get_queryset()]. *)
Context {obj : Type} (queryset_get : list (string * pyval) → lookup obj).

(** [slug_fields]: the names of the fields that identify the target. *)
Record t := mk { slug_fields : list string }.

Definition invalid {A} : outcome A := Invalid "invalid" "Invalid value.".

(** [set(data.keys()) == set(self.slug_fields)] *)
Definition same_keys (items : pydict) (names : list string) : bool :=
  forallb (λ k, existsb (λ n, py_eqb k (PyStr n)) names) items.*1
  && forallb (λ n, existsb (λ k, py_eqb k (PyStr n)) items.*1) names.

(** [**data]: the call raises [TypeError] unless every key is a string. *)
Fixpoint kwargs (items : pydict) : option (list (string * pyval)) :=
  match items with
  | [] => Some []
  | (PyStr k, v) :: rest => (λ kw, (k, v) :: kw) <$> kwargs rest
  | _ :: _ => None
  end.

(** ["=".join((lookup, value))]: [str.join] raises [TypeError] on an
    item that is not a string. *)
Definition join_clause (item : pyval * pyval) : outcome string :=
  match item with
  | (PyStr lookup, PyStr value) => Ret (lookup +:+ "=" +:+ value)
  | _ => Raise TypeError
  end.

(** The list comprehension over [data.items()]. *)
Fixpoint join_clauses (items : pydict) : outcome (list string) :=
  match items with
  | [] => Ret []
  | item :: rest =>
      c ← join_clause item; cs ← join_clauses rest; Ret (c :: cs)
  end.

(** [self.fail("does_not_exist", error_msg=...)] with the message of
    [default_error_messages]. *)
Definition does_not_exist {A} (error_msg : string) : outcome A :=
  Invalid "does_not_exist" ("Object with " +:+ error_msg +:+ " does not exist.").

(** [to_internal_value].  An exception raised while the
    [ObjectDoesNotExist] handler runs is not seen by the
    [(TypeError, ValueError)] handler of the same [try]. *)
Definition to_internal_value (self : t) (data : pydata) : outcome obj :=
  match data with
  | DDict items =>
      if negb (same_keys items (slug_fields self)) then invalid
      else
        match kwargs items with
        | None => invalid
        | Some kw =>
            match queryset_get kw with
            | Found instance => Ret instance
            | ObjectDoesNotExist =>
                lookups ← join_clauses items;
                does_not_exist (String.concat " " lookups)
            | LookupRaises TypeError | LookupRaises ValueError => invalid
            | LookupRaises e => Raise e
            end
        end
  | _ => invalid
  end.

(** One item of [zip(slug_fields, (getattr(value, f) ...))] assigned
    into the dict: [getattr] is the argument [attr], [None] when the
    attribute is missing. *)
Definition assign_attr (attr : string → option pyval)
    (acc : outcome (list (string * pyval))) (f : string)
    : outcome (list (string * pyval)) :=
  d ← acc;
  match attr f with
  | Some v => Ret (od_set String.eqb d f v)
  | None => Raise AttributeError
  end.

(** [to_representation]: [dict(zip(slug_fields, (getattr(value, f) ...)))]. *)
Definition to_representation (self : t) (attr : string → option pyval)
    : outcome (list (string * pyval)) :=
  foldl (assign_attr attr) (Ret []) (slug_fields self).
End field.
End MultiSlugRelatedField.

(** ** ComplexPKRelatedField *)

(** A model instance as [to_representation] reads it: its [str()] and
    its attributes. *)
Record pyobj := mkobj { obj_str : string; obj_attrs : gmap string pyval }.

(** [getattr(o, name)]; a missing attribute raises [AttributeError]. *)
Definition getattr (o : pyobj) (name : string) : outcome pyval :=
  match obj_attrs o !! name with
  | Some v => Ret v
  | None => Raise AttributeError
  end.

(** A field of a Django model, as [get_fields] reads it: its class (the
    key of the serializer field mapping), [verbose_name], [help_text]
    and, for a relation, [related_model]. *)
Record model_field (M : Type) := mkfield {
  field_class : string;
  verbose_name : string;
  help_text : string;
  related_model : option M
}.
Arguments mkfield {M} _ _ _ _.
Arguments field_class {M} _.
Arguments verbose_name {M} _.
Arguments help_text {M} _.
Arguments related_model {M} _.

(** A model class: the fields its [_meta] knows by name. *)
#[warnings="-register-all"]
Inductive Model := mkmodel (_meta : list (string * model_field Model)).

(** [model._meta.get_field(name)]; [None] stands for [FieldDoesNotExist]. *)
Definition get_field (model : Model) (name : string) : option (model_field Model) :=
  match model with mkmodel fs => od_get String.eqb fs name end.

(** The owning serializer: [parent.Meta] and [parent.Meta.model], either
    of which may be missing. *)
Record SerializerMeta := mkmeta { meta_model : option Model }.
Record Serializer := mkserializer { Meta : option SerializerMeta }.

(** A serializer field instance, by the arguments it was built with. *)
Record serializer_field := mksfield {
  sf_class : string;
  sf_source : option string;
  sf_read_only : bool;
  sf_label : option string;
  sf_help_text : option string
}.

Global Instance serializer_field_eq_dec : EqDecision serializer_field.
Proof. solve_decision. Defined.

(** [OrderedDict] and [BindingDict] of field name to field instance. *)
Definition field_dict := list (string * serializer_field).

Module ComplexPKRelatedField.

(** The instance.  [queryset] holds [queryset.model] when a queryset
    is configured; [fields_cache] is the entry that [cached_property]
    keeps for [fields] in the instance's [__dict__]: the identity of
    the mapping object, once computed. *)
Record t := mk {
  pk_field_name : string;
  display_field : option string;
  display_field_name : string;
  extra_fields : list string;
  instance : option pyobj;
  queryset : option Model;
  parent : option Serializer;
  source : string;
  source_attrs : list string;
  fields_cache : option nat
}.

(** [ComplexPKRelatedField(pk_field_name, display_field,
    display_field_name, fields, queryset=...)] before it is bound. *)
Definition init (pk_field_name : string) (display_field : option string)
    (display_field_name : string) (fields : list string)
    (queryset : option Model) : t :=
  mk pk_field_name display_field display_field_name fields None queryset
     None EmptyString [] None.

(** The first part of [get_fields]: the related model, from the
    queryset or from the owning serializer's [Meta.model]. *)
Definition related (self : t) : outcome (option Model) :=
  match queryset self with
  | Some model => Ret (Some model)
  | None =>
      match parent self ≫= Meta with
      | None => Raise AssertionError
      | Some meta =>
          match meta_model meta with
          | None => Raise AssertionError
          | Some parent_model =>
              match get_field parent_model (source self) with
              | None => Raise FieldDoesNotExist
              | Some f => Ret (related_model f)
              end
          end
      end
  end.

(** [CharField(source=self.display_field, read_only=True)] *)
Definition display_char_field (source : string) : serializer_field :=
  mksfield "CharField" (Some source) true None None.

(** The dict before the loop: the label field, if
    [self.display_field and self.display_field not in self.extra_fields]. *)
Definition label_fields (self : t) : field_dict :=
  match display_field self with
  | Some d =>
      if truthy (Some d) && negb (bool_decide (d ∈ extra_fields self))
      then od_set String.eqb [] (display_field_name self) (display_char_field d)
      else []
  | None => []
  end.

Section field.
(** [ClassLookupDict(ModelSerializer.serializer_field_mapping)]: the
    serializer field class for a model field class; [None] stands for
    the [KeyError] of a class that has no entry. *)
Context (field_mapping : string → option string).

(** Whether the constructor of a serializer field class has arguments
    without a default: the call below passes [read_only], [label] and
    [help_text] only, and Python raises [TypeError] when a required
    argument is missing. *)
Context (requires_arguments : string → bool).

(** One round of the loop over [self.extra_fields]. *)
Definition add_extra (self : t) (model : option Model)
    (fields : field_dict) (field_name : string) : outcome field_dict :=
  if String.eqb field_name (pk_field_name self) then Ret fields
  else
    match model with
    | None => Raise AttributeError
    | Some model =>
        match get_field model field_name with
        | None => Ret fields
        | Some model_field =>
            match field_mapping (field_class model_field) with
            | None => Raise KeyError
            | Some cls =>
                if requires_arguments cls then Raise TypeError
                else
                  Ret (od_set String.eqb fields field_name
                         (mksfield cls None true
                            (Some (verbose_name model_field))
                            (Some (help_text model_field))))
            end
        end
    end.

(** The loop. *)
Fixpoint add_extras (self : t) (model : option Model)
    (fields : field_dict) (names : list string) : outcome field_dict :=
  match names with
  | [] => Ret fields
  | field_name :: rest =>
      fields' ← add_extra self model fields field_name;
      add_extras self model fields' rest
  end.

(** [get_fields] *)
Definition get_fields (self : t) : outcome field_dict :=
  model ← related self;
  add_extras self model (label_fields self) (extra_fields self).

(** *** The cached property [fields] *)

(** [BindingDict.__setitem__]: stores the field under the key and
    binds it to the parent; the framework's [bind] can refuse. *)
Context (bind_field : string → serializer_field → outcome serializer_field).

(** The objects allocated so far (a mapping object is identified by
    its position) and the number of times [get_fields] was entered. *)
Record store := mkstore { heap : list field_dict; get_fields_calls : nat }.

(** The loop [for key, value in self.get_fields().items(): fields[key] = value]. *)
Fixpoint bind_all (fields : field_dict) (items : field_dict) : outcome field_dict :=
  match items with
  | [] => Ret fields
  | (key, value) :: rest =>
      bound ← bind_field key value;
      bind_all (od_set String.eqb fields key bound) rest
  end.

(** The body of [fields]: a new [BindingDict] is allocated, then
    filled from [get_fields()].  When that raises, the new object is
    unreachable and nothing is returned. *)
Definition fields_body (self : t) (st : store) : outcome nat * store :=
  let fields := length (heap st) in
  let st' := mkstore (heap st ++ [[]]) (S (get_fields_calls st)) in
  match items ← get_fields self; bind_all [] items with
  | Ret d => (Ret fields, mkstore (<[fields := d]> (heap st')) (get_fields_calls st'))
  | Invalid c m => (Invalid c m, st')
  | Raise e => (Raise e, st')
  end.

Definition set_fields_cache (self : t) (o : option nat) : t :=
  mk (pk_field_name self) (display_field self) (display_field_name self)
     (extra_fields self) (instance self) (queryset self) (parent self)
     (source self) (source_attrs self) o.

(** [self.fields], through [functools.cached_property]: the cached
    object if there is one; otherwise the body runs and its result,
    if it returns one, is stored in the instance. *)
Definition fields (self : t) (st : store) : outcome nat * t * store :=
  match fields_cache self with
  | Some val => (Ret val, self, st)
  | None =>
      match fields_body self st with
      | (Ret val, st') => (Ret val, set_fields_cache self (Some val), st')
      | (r, st') => (r, self, st')
      end
  end.

(** Successive accesses on one instance: the results, the instance and
    the store at the end. *)
Fixpoint fields_n (n : nat) (self : t) (st : store) : list (outcome nat) * t * store :=
  match n with
  | O => ([], self, st)
  | S n' =>
      let '(r, self', st') := fields self st in
      let '(rs, self'', st'') := fields_n n' self' st' in
      (r :: rs, self'', st'')
  end.
End field.

Section conversions.
Context {obj : Type}.
(** The base class: [PrimaryKeyRelatedField.to_internal_value] and
    [PrimaryKeyRelatedField.to_representation], and the framework's
    [get_attribute(instance, attrs)]. *)
Context (super_to_internal_value : pydata → outcome obj).
Context (super_to_representation : pyobj → outcome pyval).
Context (get_attribute : option pyobj → list string → outcome pyobj).

(** The method [get_attribute]: stores the instance being serialized
    on the field, then delegates to the base class (the argument
    [super_get_attribute]). *)
Definition cache_instance {A} (super_get_attribute : pyobj → outcome A)
    (self : t) (instance : pyobj) : outcome A * t :=
  (super_get_attribute instance,
   mk (pk_field_name self) (display_field self) (display_field_name self)
      (extra_fields self) (Some instance) (queryset self) (parent self)
      (source self) (source_attrs self) (fields_cache self)).

(** [data[key]]: only a mapping can be subscripted by a string; a
    mapping without the key raises [KeyError]. *)
Definition subscript (data : pydata) (key : string) : outcome pydata :=
  match data with
  | DDict items =>
      match dict_get items (PyStr key) with
      | Some v => Ret (DVal v)
      | None => Raise KeyError
      end
  | _ => Raise TypeError
  end.

(** [to_internal_value] *)
Definition to_internal_value (self : t) (data : pydata) : outcome obj :=
  match subscript data (pk_field_name self) with
  | Ret data' => super_to_internal_value data'
  | Raise TypeError => super_to_internal_value data
  | Invalid c m => Invalid c m
  | Raise e => Raise e
  end.

(** The [try] of [to_representation]: the object the attributes are
    read from. *)
Definition attr_obj (self : t) (value : pyobj) : outcome pyobj :=
  match get_attribute (instance self) (source_attrs self) with
  | Raise AttributeError => Ret value
  | r => r
  end.

(** The display entry, written when
    [self.display_field_name not in self.extra_fields]. *)
Definition add_display (self : t) (o : pyobj) (data : gmap string pyval)
    : outcome (gmap string pyval) :=
  if bool_decide (display_field_name self ∈ extra_fields self) then Ret data
  else
    match display_field self with
    | Some d =>
        if truthy (Some d) then
          v ← getattr o d; Ret (<[display_field_name self := v]> data)
        else Ret (<[display_field_name self := PyStr (obj_str o)]> data)
    | None => Ret (<[display_field_name self := PyStr (obj_str o)]> data)
    end.

(** The loop [for field_name in self.extra_fields]. *)
Fixpoint add_attrs (o : pyobj) (data : gmap string pyval) (names : list string)
    : outcome (gmap string pyval) :=
  match names with
  | [] => Ret data
  | field_name :: rest =>
      v ← getattr o field_name;
      add_attrs o (<[field_name := v]> data) rest
  end.

(** [to_representation] *)
Definition to_representation (self : t) (value : pyobj)
    : outcome (gmap string pyval) :=
  o ← attr_obj self value;
  pk ← super_to_representation value;
  data ← add_display self o {[pk_field_name self := pk]};
  add_attrs o data (extra_fields self).
End conversions.

End ComplexPKRelatedField.

(** ** IsNullField and IsNotNullField *)

Module IsNullField.
(** [value is None] *)
Definition to_representation (value : pyval) : bool :=
  match value with PyNone => true | _ => false end.
End IsNullField.

Module IsNotNullField.
(** [value is not None] *)
Definition to_representation (value : pyval) : bool :=
  match value with PyNone => false | _ => true end.
End IsNotNullField.

(** ** A small schema for examples *)

Module Demo.
(** A model with an [id] and a [name] column. *)
Definition person : Model :=
  mkmodel [("id", mkfield "AutoField" "ID" "Primary key" None);
           ("name", mkfield "CharField" "Full name" "Name of the person" None)].

(** Rows of the serializer field mapping: a model field class that
    has no row of its own is found under its base class [Field], which
    maps to [ModelField]; what is no model field at all (a reverse
    relation) has no entry. *)
Definition field_mapping (cls : string) : option string :=
  if String.eqb cls "AutoField" then Some "IntegerField"
  else if String.eqb cls "CharField" then Some "CharField"
  else if String.eqb cls "DecimalField" then Some "DecimalField"
  else if String.eqb cls "ForeignKey" then Some "ModelField"
  else None.

(** [DecimalField] needs [max_digits] and [decimal_places],
    [ModelField] needs [model_field]. *)
Definition requires_arguments (cls : string) : bool :=
  String.eqb cls "DecimalField" || String.eqb cls "ModelField".

(** A binding that accepts every field. *)
Definition bind_field (key : string) (f : serializer_field) : outcome serializer_field :=
  Ret f.

(** An instance of [person], with its [pk]. *)
Definition bob : pyobj :=
  mkobj "Bob" (<["pk" := PyInt 7]> (<["id" := PyInt 7]> (<["name" := PyStr "Bob"]> ∅))).

(** [value.pk], what the base class returns without a [pk_field]. *)
Definition value_pk (value : pyobj) : outcome pyval := getattr value "pk".

(** The framework's [get_attribute] as it answers while the field has
    cached no instance and has a source attribute to read: the
    attribute lookup on [None] raises [AttributeError]. *)
Definition get_attribute_unset (instance : option pyobj) (attrs : list string)
    : outcome pyobj :=
  Raise AttributeError.

(** A field bound under a name: [source] and [source_attrs] are set. *)
Definition bound (self : ComplexPKRelatedField.t) (name : string)
    : ComplexPKRelatedField.t :=
  ComplexPKRelatedField.mk
    (ComplexPKRelatedField.pk_field_name self)
    (ComplexPKRelatedField.display_field self)
    (ComplexPKRelatedField.display_field_name self)
    (ComplexPKRelatedField.extra_fields self)
    (ComplexPKRelatedField.instance self)
    (ComplexPKRelatedField.queryset self)
    (ComplexPKRelatedField.parent self)
    name [name]
    (ComplexPKRelatedField.fields_cache self).
(** A lookup source with one row, found by code A1 and region US. *)
Definition lookup_codes (kw : list (string * pyval)) : lookup nat :=
  if bool_decide (od_get String.eqb kw "code" = Some (PyStr "A1")
                  ∧ od_get String.eqb kw "region" = Some (PyStr "US"))
  then Found 1%nat else ObjectDoesNotExist.

(** A lookup source in which several rows match. *)
Definition lookup_many (kw : list (string * pyval)) : lookup nat :=
  LookupRaises (OtherError "MultipleObjectsReturned").

(** The attributes of that row. *)
Definition row_attr (name : string) : option pyval :=
  if String.eqb name "code" then Some (PyStr "A1")
  else if String.eqb name "region" then Some (PyStr "US")
  else None.
(** A model with a foreign key to [person], a decimal column and the
    reverse side of a relation from another model. *)
Definition ticket : Model :=
  mkmodel [("id", mkfield "AutoField" "ID" "Primary key" None);
           ("owner", mkfield "ForeignKey" "Owner" "Who holds it" (Some person));
           ("price", mkfield "DecimalField" "Price" "What it costs" None);
           ("comments", mkfield "ManyToOneRel" "comments" "comments" None)].
(** A row of [ticket], and the framework's [get_attribute] on it: the
    source attribute [owner] of the ticket is [bob]. *)
Definition ticket1 : pyobj :=
  mkobj "Ticket 1" (<["pk" := PyInt 1]> (<["id" := PyInt 1]> ∅)).

Definition get_attribute_owner (instance : option pyobj) (attrs : list string)
    : outcome pyobj :=
  match instance with
  | Some _ => Ret bob
  | None => Raise AttributeError
  end.

(** What the base class hands over with the primary-key-only
    optimization: an object that has a [pk] and nothing else, and
    whose [str] is that of the [pk]. *)
Definition pk_only : pyobj := mkobj "7" (<["pk" := PyInt 7]> ∅).
End Demo.

(** * Properties *)

(** ** Dictionaries *)

Section odict_facts.
Context {K V N : Type} (eqb : K → K → bool) (norm : K → N).
Hypothesis eqb_norm : ∀ a b, eqb a b = true ↔ norm a = norm b.

Lemma eqb_refl a : eqb a a = true.
Proof. by apply eqb_norm. Qed.

Lemma eqb_trans_false a b c : eqb a b = true → eqb b c = false → eqb a c = false.
Proof.
  intros Hab Hbc. apply not_true_is_false. intros Hac.
  apply eqb_norm in Hab, Hac. apply not_true_iff_false in Hbc.
  apply Hbc, eqb_norm. congruence.
Qed.

Lemma od_get_proper (d : list (K * V)) a b :
  eqb a b = true → od_get eqb d a = od_get eqb d b.
Proof.
  intros Hab. induction d as [|[k v] d IH]; [done|]. simpl.
  destruct (eqb k a) eqn:Ha, (eqb k b) eqn:Hb; try done.
  - apply eqb_norm in Ha, Hab. apply not_true_iff_false in Hb.
    destruct Hb. apply eqb_norm. congruence.
  - apply eqb_norm in Hb, Hab. apply not_true_iff_false in Ha.
    destruct Ha. apply eqb_norm. congruence.
Qed.

Lemma od_get_set_eq (d : list (K * V)) k v :
  od_get eqb (od_set eqb d k v) k = Some v.
Proof.
  induction d as [|[k' v'] d IH]; simpl.
  - by rewrite eqb_refl.
  - destruct (eqb k' k) eqn:E; simpl; by rewrite E.
Qed.

Lemma od_get_set_ne (d : list (K * V)) k k' v :
  eqb k k' = false → od_get eqb (od_set eqb d k v) k' = od_get eqb d k'.
Proof.
  intros Hne. induction d as [|[k0 v0] d IH]; simpl.
  - by rewrite Hne.
  - destruct (eqb k0 k) eqn:E; simpl; [|by rewrite IH].
    by rewrite (eqb_trans_false _ _ _ E Hne).
Qed.

Lemma od_set_wf (d : list (K * V)) k v :
  od_wf eqb d → od_wf eqb (od_set eqb d k v).
Proof.
  induction d as [|[k0 v0] d IH]; simpl; [done|].
  intros [Hget Hwf]. destruct (eqb k0 k) eqn:E; simpl; [done|].
  split; [|by apply IH].
  rewrite od_get_set_ne; [done|].
  apply not_true_is_false. intros Hk. apply eqb_norm in Hk.
  apply not_true_iff_false in E. apply E, eqb_norm. done.
Qed.

(** In a dict, an item is what the lookup of its key returns. *)
Lemma od_get_item (d : list (K * V)) k v :
  od_wf eqb d → (k, v) ∈ d → od_get eqb d k = Some v.
Proof.
  induction d as [|[k0 v0] d IH]; simpl; [by intros _ ?%elem_of_nil|].
  intros [Hget Hwf] [Heq|Hin]%elem_of_cons.
  - injection Heq as -> ->. by rewrite eqb_refl.
  - destruct (eqb k0 k) eqn:E; [|by apply IH].
    rewrite (od_get_proper d k0 k E), (IH Hwf Hin) in Hget. done.
Qed.
End odict_facts.

Lemma py_eqb_norm a b : py_eqb a b = true ↔ py_key a = py_key b.
Proof. unfold py_eqb. by rewrite bool_decide_eq_true. Qed.

Lemma string_eqb_norm (a b : string) : String.eqb a b = true ↔ id a = id b.
Proof. apply String.eqb_eq. Qed.

(** ** SequenceField *)

Lemma outputs_from (start step cur : Z) (values : list pyval) :
  SequenceField.outputs (SequenceField.mk start step (Some cur)) values
  = imap (λ n _, cur + Z.of_nat n * step) values.
Proof.
  revert cur. induction values as [|v vs IH]; intros cur; [done|].
  cbn [SequenceField.outputs SequenceField.to_representation
       SequenceField._incr]. simpl.
  rewrite IH. f_equal; [lia|].
  apply imap_ext. intros n x _. simpl. lia.
Qed.

(** C4. On a fresh [SequenceField(start, step)] the successive calls of
    [to_representation] return [start], [start + step],
    [start + 2*step], ...: the n-th call (from 0) returns
    [start + n*step], whatever values are passed in. *)
Theorem sequence_outputs (start step : Z) (values : list pyval) :
  SequenceField.outputs (SequenceField.init start step) values
  = imap (λ n _, start + Z.of_nat n * step) values.
Proof.
  destruct values as [|v vs]; [done|].
  unfold SequenceField.init.
  cbn [SequenceField.outputs SequenceField.to_representation
       SequenceField._incr]. simpl.
  rewrite outputs_from. f_equal; [lia|].
  apply imap_ext. intros n x _. simpl. lia.
Qed.

Example sequence_three :
  SequenceField.outputs (SequenceField.init 10 (-3)) [PyNone; PyStr "x"; PyInt 7]
  = [10; 7; 4].
Proof. reflexivity. Qed.

(** ** IsNullField / IsNotNullField *)

(** C6. [IsNullField.to_representation] is true exactly on [None], and
    [IsNotNullField.to_representation] is its negation on every value. *)
Theorem is_null_complement (value : pyval) :
  (IsNullField.to_representation value = true ↔ value = PyNone)
  ∧ IsNotNullField.to_representation value
    = negb (IsNullField.to_representation value).
Proof. destruct value; simpl; split; try done; split; done. Qed.

(** ** DisplayChoiceField *)

Lemma flatten_choices_wf (choices : list (pyval * pyval)) :
  od_wf py_eqb (DisplayChoiceField.flatten_choices choices).
Proof.
  unfold DisplayChoiceField.flatten_choices.
  assert (∀ d, od_wf py_eqb d →
               od_wf py_eqb (foldl (λ d c, dict_set d c.1 c.2) d choices)) as H.
  { induction choices as [|c cs IH]; intros d Hd; [done|]. simpl.
    apply IH. by apply (od_set_wf py_eqb py_key py_eqb_norm). }
  by apply H.
Qed.

(** The dict comprehension [{str(label): value for value, label in items}]:
    the entry under a label string is the raw value of the last item
    with that label string. *)
Lemma comprehension_lookup (items : pydict) (m : gmap string pyval) s raw :
  (∀ c, c ∈ items → py_str c.2 = s → c.1 = raw) →
  (m !! s = Some raw ∨ ∃ label, (raw, label) ∈ items ∧ py_str label = s) →
  foldl (λ m c, <[py_str c.2 := c.1]> m) m items !! s = Some raw.
Proof.
  revert m. induction items as [|c cs IH]; intros m Hall Hsome; simpl.
  - destruct Hsome as [?|(? & []%elem_of_nil & _)]. done.
  - apply IH.
    + intros c' Hc'. apply Hall. by right.
    + destruct (decide (py_str c.2 = s)) as [Hs|Hs].
      * left. rewrite Hs, (Hall c); [apply lookup_insert_eq|by left|done].
      * destruct Hsome as [Hm|(label & [Heq|Hin]%elem_of_cons & Hl)].
        -- left. by rewrite lookup_insert_ne.
        -- subst c. done.
        -- right. eauto.
Qed.

(** A configured integer choice is not mapped to its label: the lookup
    key is [str(value)], the stored key is the integer. *)
Example display_integer_choice :
  DisplayChoiceField.to_representation
    (DisplayChoiceField._set_choices [(PyInt 1, PyStr "One"); (PyInt 2, PyStr "Two")])
    (PyInt 1)
  = PyInt 1.
Proof. vm_compute. reflexivity. Qed.

(** C1, as stated, fails: when two raw values carry the same label, the
    label converts back to the later one, not to the first. *)
Lemma shared_label_converts_back_to_last :
  let self := DisplayChoiceField._set_choices
                [(PyStr "a", PyStr "X"); (PyStr "b", PyStr "X")] in
  (PyStr "a", PyStr "X") ∈ DisplayChoiceField._choices self
  ∧ ¬ (DisplayChoiceField.to_representation self (PyStr "a") = PyStr "X"
       ∧ DisplayChoiceField.to_internal_value self (PyStr "X") = Ret (PyStr "a")).
Proof.
  split; [vm_compute; by left|].
  intros [_ H]. vm_compute in H. discriminate H.
Qed.

(** C1, amended.  For every choice configuration and every item
    (raw, label) of the resulting mapping: if raw is a non-empty string,
    [to_representation raw] is the label; and if every item whose label
    has the same string form carries the same raw value,
    [to_internal_value label] returns raw. *)
Theorem display_round_trip (choices : list (pyval * pyval)) (raw label : pyval) :
  let self := DisplayChoiceField._set_choices choices in
  (raw, label) ∈ DisplayChoiceField._choices self →
  (∀ s, raw = PyStr s → s ≠ EmptyString →
        DisplayChoiceField.to_representation self raw = label)
  ∧ ((∀ raw' label', (raw', label') ∈ DisplayChoiceField._choices self →
                      py_str label' = py_str label → raw' = raw) →
     DisplayChoiceField.to_internal_value self label = Ret raw).
Proof.
  intros self Hin. split.
  - intros s -> Hs. unfold DisplayChoiceField.to_representation. simpl.
    destruct (String.eqb s EmptyString) eqn:E; [by apply String.eqb_eq in E|].
    unfold dict_get.
    rewrite (od_get_item py_eqb py_key py_eqb_norm _ _ label); [done| |done].
    apply flatten_choices_wf.
  - intros Huniq. unfold DisplayChoiceField.to_internal_value. simpl.
    rewrite (comprehension_lookup _ ∅ (py_str label) raw); [done| |].
    + intros [raw' label'] Hc Hs. by apply (Huniq raw' label').
    + right. by exists label.
Qed.

Lemma display_round_trip_witness :
  DisplayChoiceField.to_representation
    (DisplayChoiceField._set_choices [(PyStr "a", PyStr "Active"); (PyInt 2, PyStr "Off")])
    (PyStr "a") = PyStr "Active"
  ∧ DisplayChoiceField.to_internal_value
      (DisplayChoiceField._set_choices [(PyStr "a", PyStr "Active"); (PyInt 2, PyStr "Off")])
      (PyStr "Active") = Ret (PyStr "a").
Proof.
  pose proof (display_round_trip
                [(PyStr "a", PyStr "Active"); (PyInt 2, PyStr "Off")]
                (PyStr "a") (PyStr "Active")) as H.
  simpl in H. destruct H as [Hout Hin]; [vm_compute; by left|].
  split.
  - apply (Hout "a"); [reflexivity|discriminate].
  - apply Hin. intros raw' label' Hmem Hs.
    vm_compute in Hmem.
    apply elem_of_cons in Hmem as [Heq|Hmem]; [by injection Heq as -> _|].
    apply elem_of_cons in Hmem as [Heq|Hmem]; [|by apply elem_of_nil in Hmem].
    injection Heq as -> ->. vm_compute in Hs. discriminate Hs.
Defined.




(** ** Strings *)

Lemma append_cons x (a b : string) : String x a +:+ b = String x (a +:+ b).
Proof. reflexivity. Qed.

Lemma append_assoc (a b c : string) : (a +:+ b) +:+ c = a +:+ b +:+ c.
Proof. induction a as [|x a IH]; [done|]. by rewrite !append_cons, IH. Qed.

Lemma append_empty_r (a : string) : a +:+ EmptyString = a.
Proof. induction a as [|x a IH]; [done|]. by rewrite append_cons, IH. Qed.

Lemma contains_refl (s : string) : contains s s.
Proof. exists EmptyString, EmptyString. simpl. by rewrite append_empty_r. Qed.

Lemma contains_append_l (a t s : string) : contains t s → contains (a +:+ t) s.
Proof.
  intros (pre & post & ->). exists (a +:+ pre), post. by rewrite append_assoc.
Qed.

Lemma contains_append_r (t b s : string) : contains t s → contains (t +:+ b) s.
Proof.
  intros (pre & post & ->). exists pre, (post +:+ b).
  by rewrite !append_assoc.
Qed.

(** Every joined string occurs in [sep.join(strings)]. *)
Lemma contains_concat (sep : string) (cs : list string) (c : string) :
  c ∈ cs → contains (String.concat sep cs) c.
Proof.
  induction cs as [|x cs IH]; [by intros ?%elem_of_nil|].
  intros [->|Hin]%elem_of_cons; destruct cs as [|y cs]; simpl.
  - apply contains_refl.
  - apply contains_append_r, contains_refl.
  - by apply elem_of_nil in Hin.
  - apply contains_append_l, contains_append_l. by apply IH.
Qed.

(** ** MultiSlugRelatedField *)

Section multi_slug.
Context {obj : Type} (queryset_get : list (string * pyval) → lookup obj).

(** A value that is not a mapping is invalid. *)
Lemma multi_slug_not_mapping self data :
  (∀ items, data ≠ DDict items) → MultiSlugRelatedField.to_internal_value queryset_get self data = Invalid "invalid" "Invalid value.".
Proof. intros H. destruct data; try done. by destruct (H items). Qed.

(** A mapping whose key set is not the set of slug fields is invalid. *)
Lemma multi_slug_key_mismatch self items :
  MultiSlugRelatedField.same_keys items (MultiSlugRelatedField.slug_fields self) = false →
  MultiSlugRelatedField.to_internal_value queryset_get self (DDict items) = Invalid "invalid" "Invalid value.".
Proof. intros H. simpl. by rewrite H. Qed.

(** With the right key set, every key is a string: the call itself
    cannot fail on its keywords. *)
Lemma same_keys_kwargs items names :
  MultiSlugRelatedField.same_keys items names = true →
  is_Some (MultiSlugRelatedField.kwargs items).
Proof.
  unfold MultiSlugRelatedField.same_keys.
  intros [H _]%andb_prop. clear -H.
  induction items as [|[k v] items IH]; simpl in *; [by eexists|].
  apply andb_prop in H as [Hk Hrest].
  apply existsb_exists in Hk as (n & _ & Hn).
  apply py_eqb_norm in Hn. destruct k as [| [] | |s]; try done.
  destruct (IH Hrest) as [kw ->]. by eexists.
Qed.

(** A [TypeError] or [ValueError] of the lookup source is invalid. *)
Lemma multi_slug_lookup_error self items kw e :
  MultiSlugRelatedField.kwargs items = Some kw →
  queryset_get kw = LookupRaises e → e = TypeError ∨ e = ValueError →
  MultiSlugRelatedField.to_internal_value queryset_get self (DDict items) = Invalid "invalid" "Invalid value.".
Proof.
  intros Hkw Hget He. simpl.
  destruct (MultiSlugRelatedField.same_keys _ _); [|done]. simpl.
  rewrite Hkw, Hget. by destruct He as [-> | ->].
Qed.

Lemma join_clauses_strings items :
  Forall (λ c, ∃ s, c.2 = PyStr s) items →
  is_Some (MultiSlugRelatedField.kwargs items) →
  ∃ cs, MultiSlugRelatedField.join_clauses items = Ret cs
        ∧ ∀ k v, (PyStr k, PyStr v) ∈ items → (k +:+ "=" +:+ v) ∈ cs.
Proof.
  induction 1 as [|[k v] items [s Hs] _ IH]; intros Hkw.
  - exists []. split; [done|]. by intros ?? ?%elem_of_nil.
  - simpl in Hs. subst v. simpl in Hkw.
    destruct k as [| | |k]; try by destruct Hkw.
    destruct (MultiSlugRelatedField.kwargs items) as [kw|] eqn:E;
      [|by destruct Hkw].
    destruct IH as (cs & Hcs & Hall); [done|].
    exists ((k +:+ "=" +:+ s) :: cs). split.
    + simpl. rewrite Hcs. done.
    + intros k' v' [Heq|Hin]%elem_of_cons.
      * injection Heq as -> ->. by left.
      * right. by apply Hall.
Qed.

(** X6.  With string values, a lookup that matches nothing fails with
    [does_not_exist], and the message contains every clause
    [field=value]. *)
Lemma multi_slug_does_not_exist self items kw :
  MultiSlugRelatedField.same_keys items (MultiSlugRelatedField.slug_fields self) = true →
  Forall (λ c, ∃ s, c.2 = PyStr s) items →
  MultiSlugRelatedField.kwargs items = Some kw →
  queryset_get kw = ObjectDoesNotExist →
  ∃ msg, MultiSlugRelatedField.to_internal_value queryset_get self (DDict items) = Invalid "does_not_exist" msg
         ∧ ∀ k v, (PyStr k, PyStr v) ∈ items → contains msg (k +:+ "=" +:+ v).
Proof.
  intros Hkeys Hstr Hkw Hget. simpl. rewrite Hkeys, Hkw, Hget. simpl.
  destruct (join_clauses_strings items Hstr) as (cs & -> & Hall);
    [by rewrite Hkw|].
  eexists. split; [reflexivity|].
  intros k v Hin. apply contains_append_l, contains_append_r.
  by apply contains_concat, Hall.
Qed.
End multi_slug.

(** C3.  The claim fails where a looked-up value is not a string: with
    slug fields code and region and nothing matching, the mapping
    [{code: A1, region: 5}] does not fail with [does_not_exist];
    building the message raises [TypeError], which leaves
    [to_internal_value] uncaught. *)
Theorem multi_slug_non_string_value :
  MultiSlugRelatedField.to_internal_value (obj := unit)
    (λ _, ObjectDoesNotExist)
    (MultiSlugRelatedField.mk ["code"; "region"])
    (DDict [(PyStr "code", PyStr "A1"); (PyStr "region", PyInt 5)])
  = Raise TypeError.
Proof. reflexivity. Qed.

(** The spec's own example, with string values. *)
Example multi_slug_example :
  MultiSlugRelatedField.to_internal_value (obj := unit)
    (λ _, ObjectDoesNotExist)
    (MultiSlugRelatedField.mk ["code"; "region"])
    (DDict [(PyStr "code", PyStr "A1"); (PyStr "region", PyStr "US")])
  = Invalid "does_not_exist" "Object with code=A1 region=US does not exist."
  ∧ MultiSlugRelatedField.to_internal_value (obj := unit)
      (λ _, ObjectDoesNotExist)
      (MultiSlugRelatedField.mk ["code"; "region"])
      (DDict [(PyStr "code", PyStr "A1")])
    = Invalid "invalid" "Invalid value.".
Proof. split; reflexivity. Qed.

(** ** ComplexPKRelatedField: the derived field mapping *)

Section get_fields.
Context (field_mapping : string → option string).
Context (requires_arguments : string → bool).

(** A round of the loop writes under its own name only. *)
Lemma add_extra_other self model fields fields' n k :
  ComplexPKRelatedField.add_extra field_mapping requires_arguments self model fields n
  = Ret fields' →
  n ≠ k → od_get String.eqb fields' k = od_get String.eqb fields k.
Proof.
  unfold ComplexPKRelatedField.add_extra. intros H Hne.
  destruct (String.eqb n _); [by injection H as <-|].
  destruct model as [m|]; [|done].
  destruct (get_field m n) as [f|]; [|by injection H as <-].
  destruct (field_mapping _) as [cls|]; [|done].
  destruct (requires_arguments cls); [done|].
  injection H as <-.
  apply (od_get_set_ne String.eqb id string_eqb_norm).
  by apply String.eqb_neq.
Qed.

(** A name the model does not know leaves the mapping as it is. *)
Lemma add_extra_unknown self m fields n :
  get_field m n = None →
  ComplexPKRelatedField.add_extra field_mapping requires_arguments self (Some m) fields n
  = Ret fields.
Proof.
  intros H. unfold ComplexPKRelatedField.add_extra. rewrite H.
  by destruct (String.eqb n _).
Qed.

Lemma add_extras_other self model names : ∀ fields fields' k,
  ComplexPKRelatedField.add_extras field_mapping requires_arguments self model fields names
  = Ret fields' →
  (k ∉ names ∨ ∃ m, model = Some m ∧ get_field m k = None) →
  od_get String.eqb fields' k = od_get String.eqb fields k.
Proof.
  induction names as [|n names IH]; intros fields fields' k H Hk; simpl in H.
  - by injection H as <-.
  - destruct (ComplexPKRelatedField.add_extra field_mapping requires_arguments
                self model fields n) as [fields1| |] eqn:E;
      try done. simpl in H.
    rewrite (IH _ _ _ H).
    + destruct (decide (n = k)) as [->|Hne];
        [|by apply (add_extra_other _ _ _ _ _ _ E)].
      destruct Hk as [Hk|(m & -> & Hk)]; [by destruct Hk; left|].
      rewrite (add_extra_unknown _ _ _ _ Hk) in E. by injection E as <-.
    + destruct Hk as [Hk|Hk]; [left|by right].
      intros Hin. apply Hk. by right.
Qed.

(** The loop returns when every listed name other than [pk_field_name]
    can be looked up on a related model and, if the model knows it,
    names a field whose serializer field class is found and can be
    built from [read_only], [label] and [help_text] alone. *)
Lemma add_extras_returns self model names : ∀ fields,
  (∀ n, n ∈ names → n ≠ ComplexPKRelatedField.pk_field_name self →
        ∃ m, model = Some m
             ∧ ∀ f, get_field m n = Some f →
                    ∃ cls, field_mapping (field_class f) = Some cls
                           ∧ requires_arguments cls = false) →
  ∃ fields',
    ComplexPKRelatedField.add_extras field_mapping requires_arguments self model
      fields names
    = Ret fields'.
Proof.
  induction names as [|n names IH]; intros fields Hok; simpl; [by eexists|].
  assert (∃ fields1,
            ComplexPKRelatedField.add_extra field_mapping requires_arguments
              self model fields n
            = Ret fields1) as [fields1 ->].
  { unfold ComplexPKRelatedField.add_extra.
    destruct (String.eqb n _) eqn:Hpk; [by eexists|].
    apply String.eqb_neq in Hpk.
    destruct (Hok n) as (m & -> & Hm); [by left|done|].
    destruct (get_field m n) as [f|] eqn:E; [|by eexists].
    destruct (Hm f eq_refl) as (cls & -> & ->). by eexists. }
  simpl. apply IH. intros n' Hin. apply Hok. by right.
Qed.

(** Dropping a name the model does not know from the loop changes
    nothing. *)
Lemma add_extras_filter self m n names : ∀ fields,
  get_field m n = None →
  ComplexPKRelatedField.add_extras field_mapping requires_arguments self (Some m)
    fields names
  = ComplexPKRelatedField.add_extras field_mapping requires_arguments self (Some m)
      fields (filter (λ x, x ≠ n) names).
Proof.
  intros fields Hn. revert fields.
  induction names as [|x names IH]; intros fields; [done|].
  rewrite filter_cons. destruct (decide (x ≠ n)) as [Hx|Hx]; simpl.
  - destruct (ComplexPKRelatedField.add_extra field_mapping requires_arguments
                self (Some m) fields x); simpl; [apply IH|done..].
  - apply dec_stable in Hx as ->.
    rewrite (add_extra_unknown _ _ _ _ Hn). simpl. apply IH.
Qed.


(** C9.  An extra attribute name that is not a field of the related
    model is skipped: its round of the loop returns the mapping
    unchanged, [get_fields] behaves as if the name were not listed in
    the loop (same mapping, or same error from another name), and the
    returned mapping has under that name only what was there before
    the loop. *)
Theorem get_fields_skips_unknown self m n :
  ComplexPKRelatedField.related self = Ret (Some m) →
  get_field m n = None →
  (∀ fields, ComplexPKRelatedField.add_extra field_mapping requires_arguments self (Some m) fields n
             = Ret fields)
  ∧ ComplexPKRelatedField.get_fields field_mapping requires_arguments self
    = ComplexPKRelatedField.add_extras field_mapping requires_arguments self (Some m)
        (ComplexPKRelatedField.label_fields self)
        (filter (λ x, x ≠ n) (ComplexPKRelatedField.extra_fields self))
  ∧ ∀ fields,
      ComplexPKRelatedField.get_fields field_mapping requires_arguments self = Ret fields →
      od_get String.eqb fields n
      = od_get String.eqb (ComplexPKRelatedField.label_fields self) n.
Proof.
  intros Hrel Hn. split; [|split].
  - intros fields. by apply add_extra_unknown.
  - unfold ComplexPKRelatedField.get_fields. rewrite Hrel. simpl.
    by apply add_extras_filter.
  - intros fields. unfold ComplexPKRelatedField.get_fields.
    rewrite Hrel. simpl. intros H.
    apply (add_extras_other _ _ _ _ _ _ H). right. by exists m.
Qed.
End get_fields.



Lemma get_fields_skips_unknown_witness :
  let self := ComplexPKRelatedField.init "id" None "label" ["nickname"; "name"]
                (Some Demo.person) in
  get_field Demo.person "nickname" = None
  ∧ ComplexPKRelatedField.get_fields Demo.field_mapping Demo.requires_arguments self
    = ComplexPKRelatedField.add_extras Demo.field_mapping Demo.requires_arguments self (Some Demo.person)
        [] ["name"]
  ∧ ∀ fields,
      ComplexPKRelatedField.get_fields Demo.field_mapping Demo.requires_arguments self = Ret fields →
      od_get String.eqb fields "nickname" = None.
Proof.
  intros self.
  destruct (get_fields_skips_unknown Demo.field_mapping Demo.requires_arguments self Demo.person "nickname")
    as (_ & Hloop & Hentry); [reflexivity..|].
  split; [reflexivity|]. split; [exact Hloop|exact Hentry].
Defined.

(** ** ComplexPKRelatedField: the cached property [fields] *)

Section fields.
Context (field_mapping : string → option string).
Context (requires_arguments : string → bool).
Context (bind_field : string → serializer_field → outcome serializer_field).

(** With the cache filled, an access returns the cached object and
    touches nothing. *)
Lemma fields_hit self st val :
  ComplexPKRelatedField.fields_cache self = Some val →
  ComplexPKRelatedField.fields field_mapping requires_arguments bind_field self st = (Ret val, self, st).
Proof. intros H. unfold ComplexPKRelatedField.fields. by rewrite H. Qed.

Lemma fields_n_hit self st val n :
  ComplexPKRelatedField.fields_cache self = Some val →
  ComplexPKRelatedField.fields_n field_mapping requires_arguments bind_field n self st
  = (replicate n (Ret val), self, st).
Proof.
  intros H. induction n as [|n IH]; [done|].
  simpl. by rewrite (fields_hit _ _ _ H), IH.
Qed.

(** An access that returns leaves the cache filled with what it
    returned, having entered [get_fields] at most once. *)
Lemma fields_fills self st val self' st' :
  ComplexPKRelatedField.fields field_mapping requires_arguments bind_field self st = (Ret val, self', st') →
  ComplexPKRelatedField.fields_cache self' = Some val
  ∧ (ComplexPKRelatedField.get_fields_calls st'
     ≤ S (ComplexPKRelatedField.get_fields_calls st))%nat.
Proof.
  unfold ComplexPKRelatedField.fields, ComplexPKRelatedField.fields_body.
  destruct (ComplexPKRelatedField.fields_cache self) as [c|] eqn:Hc.
  - intros [= -> <- <-]. split; [done|lia].
  - destruct (_ ≫= _) as [d| |]; intros [= <- <- <-]. simpl. split; [done|lia].
Qed.

(** C8.  Once an access of [fields] has returned a mapping object,
    every later access on the instance returns the identical object
    and leaves the instance and the store as they are: [get_fields] is
    not entered again.  The access that computed the mapping entered
    it at most once. *)
Theorem fields_cached self st val self' st' :
  ComplexPKRelatedField.fields field_mapping requires_arguments bind_field self st = (Ret val, self', st') →
  (ComplexPKRelatedField.get_fields_calls st'
   ≤ S (ComplexPKRelatedField.get_fields_calls st))%nat
  ∧ ∀ n, ComplexPKRelatedField.fields_n field_mapping requires_arguments bind_field n self' st'
         = (replicate n (Ret val), self', st').
Proof.
  intros [Hcache Hcalls]%fields_fills. split; [done|].
  intros n. by apply fields_n_hit.
Qed.

(** While the body raises, nothing is cached. *)
Lemma fields_raises self st e self' st' :
  ComplexPKRelatedField.fields_cache self = None →
  ComplexPKRelatedField.fields field_mapping requires_arguments bind_field self st = (Raise e, self', st') →
  self' = self.
Proof.
  unfold ComplexPKRelatedField.fields, ComplexPKRelatedField.fields_body.
  intros ->. by destruct (_ ≫= _) as [d| |]; intros [= <- <- <-].
Qed.
(** While the body does not return, an access returns nothing and
    leaves the cache empty. *)
Lemma fields_miss self st :
  ComplexPKRelatedField.fields_cache self = None →
  (∀ d, (items ← ComplexPKRelatedField.get_fields field_mapping requires_arguments self;
         ComplexPKRelatedField.bind_all bind_field [] items) ≠ Ret d) →
  ∃ r st', ComplexPKRelatedField.fields field_mapping requires_arguments bind_field self st = (r, self, st')
           ∧ ∀ val, r ≠ Ret val.
Proof.
  intros Hc Hfail.
  unfold ComplexPKRelatedField.fields, ComplexPKRelatedField.fields_body.
  rewrite Hc.
  destruct (_ ≫= _) as [d|c m|e] eqn:E; [by destruct (Hfail d)|..];
    by repeat eexists.
Qed.

Lemma fields_n_miss self n : ∀ st,
  ComplexPKRelatedField.fields_cache self = None →
  (∀ d, (items ← ComplexPKRelatedField.get_fields field_mapping requires_arguments self;
         ComplexPKRelatedField.bind_all bind_field [] items) ≠ Ret d) →
  (ComplexPKRelatedField.fields_n field_mapping requires_arguments bind_field n self st).1.2 = self
  ∧ ∀ val, Ret val ∉ (ComplexPKRelatedField.fields_n field_mapping requires_arguments bind_field
                         n self st).1.1.
Proof.
  intros st Hc Hfail. revert st. induction n as [|n IH]; intros st.
  - split; [done|]. by intros val ?%elem_of_nil.
  - destruct (fields_miss self st Hc Hfail) as (r & st' & Hf & Hr).
    simpl. rewrite Hf. destruct (IH st') as [Hself Hno].
    destruct (ComplexPKRelatedField.fields_n field_mapping requires_arguments bind_field n self st')
      as [[rs self1] st1].
    simpl in *. split; [done|].
    intros val [Heq|?]%elem_of_cons; [by destruct (Hr val)|]. by apply (Hno val).
Qed.

(** X21.  On an instance with an empty cache, either the first access
    returns and every access returns that same object, [get_fields]
    having been entered once; or no access returns and the cache stays
    empty: no mapping is ever computed. *)
Lemma fields_n_fresh self n st :
  ComplexPKRelatedField.fields_cache self = None →
  (∃ val self' st',
      ComplexPKRelatedField.fields_n field_mapping requires_arguments bind_field (S n) self st
      = (replicate (S n) (Ret val), self', st')
      ∧ ComplexPKRelatedField.get_fields_calls st'
        = S (ComplexPKRelatedField.get_fields_calls st))
  ∨ ((ComplexPKRelatedField.fields_n field_mapping requires_arguments bind_field n self st).1.2 = self
     ∧ ∀ val, Ret val ∉ (ComplexPKRelatedField.fields_n field_mapping requires_arguments bind_field
                            n self st).1.1).
Proof.
  intros Hc.
  destruct (items ← ComplexPKRelatedField.get_fields field_mapping requires_arguments self;
            ComplexPKRelatedField.bind_all bind_field [] items) as [d|c m|e] eqn:E.
  - left.
    assert (∃ val self' st',
      ComplexPKRelatedField.fields field_mapping requires_arguments bind_field self st = (Ret val, self', st')
      ∧ ComplexPKRelatedField.get_fields_calls st'
        = S (ComplexPKRelatedField.get_fields_calls st)) as (val & self' & st' & Hf & Hcalls).
    { unfold ComplexPKRelatedField.fields, ComplexPKRelatedField.fields_body.
      rewrite Hc, E. by repeat eexists. }
    exists val, self', st'. split; [|done].
    destruct (fields_fills _ _ _ _ _ Hf) as [Hcache _].
    simpl. by rewrite Hf, (fields_n_hit _ _ _ _ Hcache).
  - right. apply fields_n_miss; [done|]. intros d. by rewrite E.
  - right. apply fields_n_miss; [done|]. intros d. by rewrite E.
Qed.
End fields.

Lemma fields_cached_witness :
  let self := ComplexPKRelatedField.init "id" (Some "title") "label" ["name"]
                (Some Demo.person) in
  let st := ComplexPKRelatedField.mkstore [] 0 in
  let self' := ComplexPKRelatedField.set_fields_cache self (Some 0%nat) in
  let st' := ComplexPKRelatedField.mkstore
               [[("label", ComplexPKRelatedField.display_char_field "title");
                 ("name", mksfield "CharField" None true (Some "Full name")
                            (Some "Name of the person"))]] 1 in
  ComplexPKRelatedField.fields Demo.field_mapping Demo.requires_arguments Demo.bind_field self st
  = (Ret 0%nat, self', st')
  ∧ ComplexPKRelatedField.fields_n Demo.field_mapping Demo.requires_arguments Demo.bind_field 3 self' st'
    = ([Ret 0%nat; Ret 0%nat; Ret 0%nat], self', st').
Proof.
  intros self st self' st'.
  assert (ComplexPKRelatedField.fields Demo.field_mapping Demo.requires_arguments Demo.bind_field self st
          = (Ret 0%nat, self', st')) as H by reflexivity.
  split; [exact H|].
  exact (proj2 (fields_cached Demo.field_mapping Demo.requires_arguments Demo.bind_field self st 0%nat
                  self' st' H) 3%nat).
Defined.

(** ** ComplexPKRelatedField: conversions *)

Section conversions.
Context {obj : Type}.
Context (super_to_internal_value : pydata → outcome obj).
Context (super_to_representation : pyobj → outcome pyval).
Context (get_attribute : option pyobj → list string → outcome pyobj).

(** C10.  On a mapping that lacks the key [pk_field_name],
    [to_internal_value] raises [KeyError], which is neither caught nor
    turned into a validation error.  Only the [TypeError] of
    subscripting a value that is not a mapping is suppressed, and the
    value itself then goes to the base class; a mapping that has the
    key hands the value under it to the base class. *)
Theorem to_internal_value_key_error self data :
  (∀ items, data = DDict items →
     dict_get items (PyStr (ComplexPKRelatedField.pk_field_name self)) = None →
     ComplexPKRelatedField.to_internal_value super_to_internal_value self data
     = Raise KeyError)
  ∧ (∀ items v, data = DDict items →
       dict_get items (PyStr (ComplexPKRelatedField.pk_field_name self)) = Some v →
       ComplexPKRelatedField.to_internal_value super_to_internal_value self data
       = super_to_internal_value (DVal v))
  ∧ ((∀ items, data ≠ DDict items) →
       ComplexPKRelatedField.subscript data (ComplexPKRelatedField.pk_field_name self)
       = Raise TypeError
       ∧ ComplexPKRelatedField.to_internal_value super_to_internal_value self data
         = super_to_internal_value data).
Proof.
  unfold ComplexPKRelatedField.to_internal_value. repeat split.
  - intros items -> H. simpl. by rewrite H.
  - intros items v -> H. simpl. by rewrite H.
  - destruct data; try done. by destruct (H items).
  - destruct data; try done. by destruct (H items).
Qed.

(** The loop over the extra names, on an object that has them all:
    it returns, each name holds the object's attribute, and every
    other key is as before. *)
Lemma add_attrs_returns o names : ∀ data,
  (∀ n, n ∈ names → is_Some (obj_attrs o !! n)) →
  ∃ data', ComplexPKRelatedField.add_attrs o data names = Ret data'
           ∧ (∀ n, n ∈ names → data' !! n = obj_attrs o !! n)
           ∧ (∀ k, k ∉ names → data' !! k = data !! k).
Proof.
  induction names as [|n names IH]; intros data Hattrs; simpl.
  - exists data. split; [done|]. split; [by intros ? ?%elem_of_nil|done].
  - destruct (Hattrs n) as [v Hv]; [by left|].
    unfold getattr. rewrite Hv. simpl.
    destruct (IH (<[n:=v]> data)) as (data' & Hret & Hin & Hout).
    { intros n' Hn'. apply Hattrs. by right. }
    exists data'. split; [done|]. split.
    + intros n' Hn'. destruct (decide (n' ∈ names)) as [?|Hnot]; [by apply Hin|].
      apply elem_of_cons in Hn' as [->|?]; [|done].
      by rewrite (Hout n Hnot), lookup_insert_eq.
    + intros k Hk. apply not_elem_of_cons in Hk as [Hne Hk].
      by rewrite (Hout k Hk), lookup_insert_ne.
Qed.

(** C5, amended.  When the object the attributes are read from has
    every attribute that is read, [to_representation] returns a
    mapping that holds each extra attribute's value under its own
    name; when the display key is not among the extra names, the
    display value under the display key: the display attribute of the
    object, or [str] of the object when no display attribute is
    configured; and the resolved primary key under [pk_field_name]
    when that name is neither an extra name nor the display key. *)
Theorem to_representation_contents self value o pk :
  ComplexPKRelatedField.attr_obj get_attribute self value = Ret o →
  super_to_representation value = Ret pk →
  (∀ n, n ∈ ComplexPKRelatedField.extra_fields self → is_Some (obj_attrs o !! n)) →
  (∀ d, ComplexPKRelatedField.display_field self = Some d →
      truthy (Some d) = true →
      ComplexPKRelatedField.display_field_name self
        ∉ ComplexPKRelatedField.extra_fields self →
      is_Some (obj_attrs o !! d)) →
  ∃ data,
    ComplexPKRelatedField.to_representation
      super_to_representation get_attribute self value = Ret data
    ∧ (∀ n, n ∈ ComplexPKRelatedField.extra_fields self →
            data !! n = obj_attrs o !! n)
    ∧ (ComplexPKRelatedField.display_field_name self
         ∉ ComplexPKRelatedField.extra_fields self →
       data !! ComplexPKRelatedField.display_field_name self
       = match ComplexPKRelatedField.display_field self with
         | Some d => if truthy (Some d) then obj_attrs o !! d
                     else Some (PyStr (obj_str o))
         | None => Some (PyStr (obj_str o))
         end)
    ∧ (ComplexPKRelatedField.pk_field_name self
         ∉ ComplexPKRelatedField.extra_fields self →
       ComplexPKRelatedField.pk_field_name self
         ≠ ComplexPKRelatedField.display_field_name self →
       data !! ComplexPKRelatedField.pk_field_name self = Some pk).
Proof.
  intros Hobj Hpk Hextra Hdisp.
  unfold ComplexPKRelatedField.to_representation.
  rewrite Hobj. simpl. rewrite Hpk. simpl.
  set (data0 := {[ComplexPKRelatedField.pk_field_name self := pk]} : gmap string pyval).
  assert (∃ data1,
    ComplexPKRelatedField.add_display self o data0 = Ret data1
    ∧ (ComplexPKRelatedField.display_field_name self
         ∉ ComplexPKRelatedField.extra_fields self →
       data1 !! ComplexPKRelatedField.display_field_name self
       = match ComplexPKRelatedField.display_field self with
         | Some d => if truthy (Some d) then obj_attrs o !! d
                     else Some (PyStr (obj_str o))
         | None => Some (PyStr (obj_str o))
         end)
    ∧ (ComplexPKRelatedField.pk_field_name self
         ≠ ComplexPKRelatedField.display_field_name self →
       data1 !! ComplexPKRelatedField.pk_field_name self = Some pk))
    as (data1 & Hd1 & Hlabel & Hkey).
  { unfold ComplexPKRelatedField.add_display.
    case_bool_decide as Hin.
    { exists data0. split; [done|]. split; [done|].
      intros _. apply lookup_singleton_eq. }
    destruct (ComplexPKRelatedField.display_field self) as [d|] eqn:Hd.
    - destruct (truthy (Some d)) eqn:Ht.
      + destruct (Hdisp d eq_refl Ht Hin) as [v Hv].
        unfold getattr. rewrite Hv. simpl.
        eexists. split; [done|]. split.
        * intros _. by rewrite lookup_insert_eq.
        * intros Hne. rewrite lookup_insert_ne; [|done].
          apply lookup_singleton_eq.
      + eexists. split; [done|]. split.
        * intros _. by rewrite lookup_insert_eq.
        * intros Hne. rewrite lookup_insert_ne; [|done].
          apply lookup_singleton_eq.
    - eexists. split; [done|]. split.
      * intros _. by rewrite lookup_insert_eq.
      * intros Hne. rewrite lookup_insert_ne; [|done].
        apply lookup_singleton_eq. }
  rewrite Hd1. simpl.
  destruct (add_attrs_returns o (ComplexPKRelatedField.extra_fields self) data1 Hextra)
    as (data & Hret & Hin & Hout).
  exists data. split; [done|]. split; [done|]. split.
  - intros Hnot. rewrite (Hout _ Hnot). by apply Hlabel.
  - intros Hnot Hne. rewrite (Hout _ Hnot). by apply Hkey.
Qed.
End conversions.

Lemma to_internal_value_key_error_witness :
  ComplexPKRelatedField.to_internal_value (λ d, Ret d)
    (ComplexPKRelatedField.init "id" None "label" [] None)
    (DDict [(PyStr "name", PyStr "Bob")])
  = Raise KeyError
  ∧ ComplexPKRelatedField.to_internal_value (λ d, Ret d)
      (ComplexPKRelatedField.init "id" None "label" [] None)
      (DDict [(PyStr "id", PyInt 7)])
    = Ret (DVal (PyInt 7))
  ∧ ComplexPKRelatedField.to_internal_value (λ d, Ret d)
      (ComplexPKRelatedField.init "id" None "label" [] None)
      (DVal (PyInt 7))
    = Ret (DVal (PyInt 7)).
Proof.
  split; [|split].
  - apply (proj1 (to_internal_value_key_error (λ d, Ret d)
                    (ComplexPKRelatedField.init "id" None "label" [] None)
                    (DDict [(PyStr "name", PyStr "Bob")]))
             [(PyStr "name", PyStr "Bob")]); reflexivity.
  - apply (proj1 (proj2 (to_internal_value_key_error (λ d, Ret d)
                    (ComplexPKRelatedField.init "id" None "label" [] None)
                    (DDict [(PyStr "id", PyInt 7)])))
             [(PyStr "id", PyInt 7)] (PyInt 7)); reflexivity.
  - apply (proj2 (proj2 (to_internal_value_key_error (λ d, Ret d)
                    (ComplexPKRelatedField.init "id" None "label" [] None)
                    (DVal (PyInt 7))))).
    intros items H. discriminate H.
Defined.

(** C5, as stated, fails: with [pk_field_name] and [display_field_name]
    both [id] and no extra names, the display key is not covered by the
    extras, the resolved primary key is 7, and the mapping holds the
    display value under [id], not the primary key.  (The field is bound
    as [owner] and has cached no instance, so the attributes are read
    from the value itself.) *)
Lemma to_representation_pk_replaced :
  let self := Demo.bound (ComplexPKRelatedField.init "id" None "id" [] None) "owner" in
  (ComplexPKRelatedField.display_field_name self
     ∉ ComplexPKRelatedField.extra_fields self)
  ∧ Demo.value_pk Demo.bob = Ret (PyInt 7)
  ∧ ∃ data,
      ComplexPKRelatedField.to_representation Demo.value_pk Demo.get_attribute_unset
        self Demo.bob = Ret data
      ∧ data !! ComplexPKRelatedField.pk_field_name self = Some (PyStr "Bob")
      ∧ data !! ComplexPKRelatedField.pk_field_name self ≠ Some (PyInt 7).
Proof.
  split; [by intros ?%elem_of_nil|]. split; [reflexivity|].
  eexists. split; [reflexivity|].
  split; [vm_compute; reflexivity|vm_compute; discriminate].
Qed.

(** An extra attribute the object lacks: [AttributeError] leaves
    [to_representation], no mapping is returned. *)
Example to_representation_missing_attribute :
  ComplexPKRelatedField.to_representation Demo.value_pk Demo.get_attribute_unset
    (Demo.bound (ComplexPKRelatedField.init "id" None "label" ["name"; "status"] None) "owner")
    Demo.bob
  = Raise AttributeError.
Proof. vm_compute. reflexivity. Qed.

Lemma to_representation_contents_witness :
  ∃ data,
    ComplexPKRelatedField.to_representation Demo.value_pk Demo.get_attribute_unset
      (Demo.bound (ComplexPKRelatedField.init "id" None "label" ["name"] None) "owner") Demo.bob
    = Ret data
    ∧ data !! "name" = Some (PyStr "Bob")
    ∧ data !! "label" = Some (PyStr "Bob")
    ∧ data !! "id" = Some (PyInt 7).
Proof.
  destruct (to_representation_contents Demo.value_pk Demo.get_attribute_unset
              (Demo.bound (ComplexPKRelatedField.init "id" None "label" ["name"] None) "owner")
              Demo.bob Demo.bob (PyInt 7))
    as (data & Hret & Hextra & Hlabel & Hpk).
  - reflexivity.
  - reflexivity.
  - simpl. intros n ->%list_elem_of_singleton. by eexists.
  - simpl. intros d H. discriminate H.
  - exists data. split; [exact Hret|]. split; [|split].
    + etrans; [apply Hextra; by left|]. reflexivity.
    + etrans; [apply Hlabel|reflexivity].
      simpl. intros H%list_elem_of_singleton. discriminate H.
    + apply Hpk.
      * simpl. intros H%list_elem_of_singleton. discriminate H.
      * simpl. discriminate.
Defined.

(** * Further properties *)

#[local] Set Warnings "-clear-no-such-hyp".

(** ** SequenceField: the counter is never reset *)

Lemma after_from (start step cur : Z) (values : list pyval) :
  SequenceField.after (SequenceField.mk start step (Some cur)) values
  = SequenceField.mk start step (Some (cur + Z.of_nat (length values) * step)).
Proof.
  revert cur. induction values as [|v vs IH]; intros cur.
  - simpl. do 2 f_equal. lia.
  - cbn [SequenceField.after SequenceField.to_representation
         SequenceField._incr snd]. simpl.
    rewrite IH. do 2 f_equal. lia.
Qed.

(** X1.  A [SequenceField] that has already numbered some records goes
    on where it stopped: after [k] calls on a fresh instance, the next
    calls return [start + k*step], [start + (k+1)*step], ...; nothing
    resets the counter between two lists serialized with the same
    instance. *)
Theorem sequence_continues (start step : Z) (before values : list pyval) :
  SequenceField.outputs
    (SequenceField.after (SequenceField.init start step) before) values
  = imap (λ n _, start + Z.of_nat (length before + n) * step) values.
Proof.
  destruct before as [|b before].
  - destruct values as [|v vs]; [done|].
    unfold SequenceField.init.
    cbn [SequenceField.after SequenceField.outputs
         SequenceField.to_representation SequenceField._incr]. simpl.
    rewrite outputs_from. f_equal; [lia|].
    apply imap_ext. intros n x _. simpl. lia.
  - unfold SequenceField.init.
    cbn [SequenceField.after SequenceField.to_representation
         SequenceField._incr snd]. simpl.
    rewrite after_from, outputs_from.
    apply imap_ext. intros n x _. simpl. lia.
Qed.

(** ** DisplayChoiceField: the two derived mappings *)


Lemma comprehension_sound (items : pydict) : ∀ (m : gmap string pyval) s raw,
  foldl (λ m c, <[py_str c.2 := c.1]> m) m items !! s = Some raw →
  m !! s = Some raw ∨ ∃ label, (raw, label) ∈ items ∧ py_str label = s.
Proof.
  induction items as [|[r l] cs IH]; intros m s raw H; simpl in H; [by left|].
  apply IH in H as [H|(label & Hin & Hs)].
  - destruct (decide (py_str l = s)) as [Hs|Hs].
    + rewrite Hs, lookup_insert_eq in H. injection H as <-.
      right. exists l. split; [by left|done].
    + rewrite lookup_insert_ne in H by done. by left.
  - right. exists label. split; [by right|done].
Qed.

Lemma comprehension_complete (items : pydict) : ∀ (m : gmap string pyval) s,
  (is_Some (m !! s) ∨ ∃ c, c ∈ items ∧ py_str c.2 = s) →
  is_Some (foldl (λ m c, <[py_str c.2 := c.1]> m) m items !! s).
Proof.
  induction items as [|c cs IH]; intros m s H; simpl.
  - destruct H as [H|(c & []%elem_of_nil & _)]. done.
  - apply IH. destruct (decide (py_str c.2 = s)) as [Hs|Hs].
    + left. rewrite Hs, lookup_insert_eq. by eexists.
    + destruct H as [H|(c' & [->|Hin]%elem_of_cons & Hc')]; [|done|].
      * left. by rewrite lookup_insert_ne.
      * right. by exists c'.
Qed.

(** X2.  The mapping [choice_strings_to_values] that [_set_choices]
    builds has a key for the string form of every configured label, and
    every one of its entries maps the string form of a configured label
    to the raw value of an entry with that label string: it never holds
    a value that is not a configured raw value. *)
Theorem choice_strings_cover (choices : list (pyval * pyval)) :
  let self := DisplayChoiceField._set_choices choices in
  (∀ raw label, (raw, label) ∈ DisplayChoiceField._choices self →
     is_Some (DisplayChoiceField.choice_strings_to_values self !! py_str label))
  ∧ (∀ s raw, DisplayChoiceField.choice_strings_to_values self !! s = Some raw →
       ∃ label, (raw, label) ∈ DisplayChoiceField._choices self ∧ py_str label = s).
Proof.
  intros self. split.
  - intros raw label Hin. simpl. apply comprehension_complete.
    right. by exists (raw, label).
  - intros s raw H. simpl in H.
    apply comprehension_sound in H as [H|H]; [|done].
    by rewrite lookup_empty in H.
Qed.




(** ** MultiSlugRelatedField: what leaves [to_internal_value] *)

Lemma same_keys_spec (items : pydict) (names : list string) :
  MultiSlugRelatedField.same_keys items names = true
  ↔ (∀ k, k ∈ items.*1 → ∃ n, n ∈ names ∧ k = PyStr n)
    ∧ (∀ n, n ∈ names → PyStr n ∈ items.*1).
Proof.
  unfold MultiSlugRelatedField.same_keys.
  rewrite andb_true_iff, !forallb_forall. split.
  - intros [Hk Hn]. split.
    + intros k Hin%list_elem_of_In.
      apply Hk, existsb_exists in Hin as (n & Hin%list_elem_of_In & Heq).
      exists n. split; [done|].
      apply py_eqb_norm in Heq. by destruct k as [| [] | |].
    + intros n Hin%list_elem_of_In.
      apply Hn, existsb_exists in Hin as (k & Hin%list_elem_of_In & Heq).
      apply py_eqb_norm in Heq. destruct k as [| [] | |]; try done.
      simpl in Heq. by injection Heq as <-.
  - intros [Hk Hn]. split.
    + intros k Hin%list_elem_of_In. apply existsb_exists.
      destruct (Hk k Hin) as (n & Hn' & ->).
      exists n. split; [by apply list_elem_of_In|]. by apply py_eqb_norm.
    + intros n Hin%list_elem_of_In. apply existsb_exists.
      exists (PyStr n). split; [by apply list_elem_of_In, Hn|]. by apply py_eqb_norm.
Qed.

Lemma kwargs_data_of_dict (d : list (string * pyval)) :
  MultiSlugRelatedField.kwargs ((λ kv, (PyStr kv.1, kv.2)) <$> d) = Some d.
Proof.
  induction d as [|[k v] d IH]; [done|].
  rewrite fmap_cons. cbn [MultiSlugRelatedField.kwargs fst snd].
  by rewrite IH.
Qed.

Section multi_slug_more.
Context {obj : Type} (queryset_get : list (string * pyval) → lookup obj).

(** Building the message never returns a validation error of its own,
    and raises only [TypeError], on a value that is not a string. *)
Lemma join_clauses_raise items kw e :
  MultiSlugRelatedField.kwargs items = Some kw →
  MultiSlugRelatedField.join_clauses items = Raise e →
  e = TypeError ∧ ∃ k v, (k, v) ∈ items ∧ ∀ s, v ≠ PyStr s.
Proof.
  revert kw. induction items as [|[k v] items IH]; intros kw Hkw; [done|].
  simpl in Hkw. destruct k as [| | |k]; try done.
  destruct (MultiSlugRelatedField.kwargs items) as [kw'|] eqn:E; [|done].
  simpl. destruct v as [| | |v]; simpl.
  1-3: intros [= <-]; split; [done|]; eexists _, _; split; [by left|done].
  destruct (MultiSlugRelatedField.join_clauses items) as [cs| |e'] eqn:Ej;
    simpl; try done.
  intros [= ->]. destruct (IH kw' eq_refl eq_refl) as (-> & k' & v' & Hin & Hv).
  split; [done|]. exists k', v'. split; [by right|done].
Qed.

Lemma join_clauses_not_invalid items c m :
  MultiSlugRelatedField.join_clauses items ≠ Invalid c m.
Proof.
  induction items as [|[k v] items IH]; [done|]. simpl.
  destruct k, v; simpl; try done.
  by destruct (MultiSlugRelatedField.join_clauses items).
Qed.

(** X5.  [to_internal_value] returns an object only when the submitted
    value is a mapping whose key set is the set of slug fields and the
    lookup source, asked with exactly the items of that mapping as
    keyword arguments, found that object. *)
Theorem multi_slug_returns_found self data o :
  MultiSlugRelatedField.to_internal_value queryset_get self data = Ret o →
  ∃ items kw,
    data = DDict items
    ∧ MultiSlugRelatedField.same_keys items (MultiSlugRelatedField.slug_fields self) = true
    ∧ MultiSlugRelatedField.kwargs items = Some kw
    ∧ queryset_get kw = Found o.
Proof.
  destruct data as [v|l|items]; try done. simpl.
  destruct (MultiSlugRelatedField.same_keys _ _) eqn:Hk; [|done]. simpl.
  destruct (MultiSlugRelatedField.kwargs items) as [kw|] eqn:Hkw; [|done].
  destruct (queryset_get kw) as [o'| |e] eqn:Hq.
  - intros [= ->]. by exists items, kw.
  - by destruct (MultiSlugRelatedField.join_clauses items).
  - by destruct e.
Qed.

(** X7.  An exception other than a validation error leaves
    [to_internal_value] in two cases only: the lookup source raised it
    and it is neither [TypeError] nor [ValueError]; or nothing matched,
    some submitted value is not a string, and it is the [TypeError] of
    joining the message. *)
Theorem multi_slug_uncaught self data e :
  MultiSlugRelatedField.to_internal_value queryset_get self data = Raise e →
  ∃ items kw,
    data = DDict items
    ∧ MultiSlugRelatedField.kwargs items = Some kw
    ∧ ((queryset_get kw = LookupRaises e ∧ e ≠ TypeError ∧ e ≠ ValueError)
       ∨ (queryset_get kw = ObjectDoesNotExist ∧ e = TypeError
          ∧ ∃ k v, (k, v) ∈ items ∧ ∀ s, v ≠ PyStr s)).
Proof.
  destruct data as [v|l|items]; try done. simpl.
  destruct (MultiSlugRelatedField.same_keys _ _) eqn:Hk; [|done]. simpl.
  destruct (MultiSlugRelatedField.kwargs items) as [kw|] eqn:Hkw; [|done].
  destruct (queryset_get kw) as [o'| |e'] eqn:Hq; [done| |].
  - destruct (MultiSlugRelatedField.join_clauses items) as [cs| |e'] eqn:Ej;
      simpl; try done.
    intros [= ->]. destruct (join_clauses_raise _ _ _ Hkw Ej) as [-> Hv].
    exists items, kw. split; [done|]. split; [done|]. by right.
  - intros H. exists items, kw. split; [done|]. split; [done|]. left.
    by destruct e'; simplify_eq.
Qed.

(** X10.  The validation errors of [to_internal_value] carry the code
    [invalid] or [does_not_exist], and [does_not_exist] only when the
    lookup source reported that nothing matched. *)
Theorem multi_slug_codes self data code msg :
  MultiSlugRelatedField.to_internal_value queryset_get self data = Invalid code msg →
  (code = "invalid" ∧ msg = "Invalid value.")
  ∨ (code = "does_not_exist"
     ∧ ∃ items kw, data = DDict items
                   ∧ MultiSlugRelatedField.kwargs items = Some kw
                   ∧ queryset_get kw = ObjectDoesNotExist).
Proof.
  destruct data as [v|l|items]; simpl; try (intros [= <- <-]; by left).
  destruct (MultiSlugRelatedField.same_keys _ _) eqn:Hk; simpl;
    [|intros [= <- <-]; by left].
  destruct (MultiSlugRelatedField.kwargs items) as [kw|] eqn:Hkw;
    [|intros [= <- <-]; by left].
  destruct (queryset_get kw) as [o'| |e'] eqn:Hq; [done| |].
  - destruct (MultiSlugRelatedField.join_clauses items) as [cs|c' m'|e'] eqn:Ej;
      simpl; [|by destruct (join_clauses_not_invalid items c' m')|done].
    intros [= <- <-]. right. split; [done|]. by exists items, kw.
  - destruct e'; try done; intros [= <- <-]; by left.
Qed.
End multi_slug_more.

Lemma multi_slug_returns_found_witness :
  ∃ items kw,
    DDict [(PyStr "region", PyStr "US"); (PyStr "code", PyStr "A1")] = DDict items
    ∧ MultiSlugRelatedField.same_keys items ["code"; "region"] = true
    ∧ MultiSlugRelatedField.kwargs items = Some kw
    ∧ Demo.lookup_codes kw = Found 1%nat.
Proof.
  apply (multi_slug_returns_found Demo.lookup_codes
           (MultiSlugRelatedField.mk ["code"; "region"])
           (DDict [(PyStr "region", PyStr "US"); (PyStr "code", PyStr "A1")])
           1%nat).
  reflexivity.
Defined.

Lemma multi_slug_does_not_exist_witness :
  ∃ msg,
    MultiSlugRelatedField.to_internal_value Demo.lookup_codes
      (MultiSlugRelatedField.mk ["code"; "region"])
      (DDict [(PyStr "code", PyStr "B2"); (PyStr "region", PyStr "US")])
    = Invalid "does_not_exist" msg
    ∧ contains msg "code=B2" ∧ contains msg "region=US".
Proof.
  destruct (multi_slug_does_not_exist Demo.lookup_codes
              (MultiSlugRelatedField.mk ["code"; "region"])
              [(PyStr "code", PyStr "B2"); (PyStr "region", PyStr "US")]
              [("code", PyStr "B2"); ("region", PyStr "US")])
    as (msg & Hmsg & Hall).
  - reflexivity.
  - repeat constructor; by eexists.
  - reflexivity.
  - reflexivity.
  - exists msg. split; [exact Hmsg|]. split.
    + apply (Hall "code" "B2"). by left.
    + apply (Hall "region" "US"). right. by left.
Defined.

Lemma multi_slug_uncaught_witness :
  ∃ items kw,
    DDict [(PyStr "code", PyStr "A1"); (PyStr "region", PyStr "US")] = DDict items
    ∧ MultiSlugRelatedField.kwargs items = Some kw
    ∧ ((Demo.lookup_many kw = LookupRaises (OtherError "MultipleObjectsReturned")
        ∧ OtherError "MultipleObjectsReturned" ≠ TypeError
        ∧ OtherError "MultipleObjectsReturned" ≠ ValueError)
       ∨ (Demo.lookup_many kw = ObjectDoesNotExist
          ∧ OtherError "MultipleObjectsReturned" = TypeError
          ∧ ∃ k v, (k, v) ∈ items ∧ ∀ s, v ≠ PyStr s)).
Proof.
  apply (multi_slug_uncaught Demo.lookup_many
           (MultiSlugRelatedField.mk ["code"; "region"])
           (DDict [(PyStr "code", PyStr "A1"); (PyStr "region", PyStr "US")])).
  reflexivity.
Defined.

Lemma multi_slug_codes_witness :
  ("does_not_exist" = "invalid"
   ∧ "Object with code=B2 region=US does not exist." = "Invalid value.")
  ∨ ("does_not_exist" = "does_not_exist"
     ∧ ∃ items kw,
         DDict [(PyStr "code", PyStr "B2"); (PyStr "region", PyStr "US")] = DDict items
         ∧ MultiSlugRelatedField.kwargs items = Some kw
         ∧ Demo.lookup_codes kw = ObjectDoesNotExist).
Proof.
  apply (multi_slug_codes Demo.lookup_codes
           (MultiSlugRelatedField.mk ["code"; "region"])
           (DDict [(PyStr "code", PyStr "B2"); (PyStr "region", PyStr "US")])).
  reflexivity.
Defined.

(** ** MultiSlugRelatedField: [to_representation] and the way back *)

Lemma od_set_keys (d : list (string * pyval)) f v k :
  k ∈ (od_set String.eqb d f v).*1 ↔ k ∈ d.*1 ∨ k = f.
Proof.
  induction d as [|[k0 v0] d IH]; simpl.
  - rewrite list_elem_of_singleton. split; [by right|]. by intros [?%elem_of_nil|].
  - destruct (String.eqb k0 f) eqn:E; simpl.
    + apply String.eqb_eq in E as ->. rewrite !elem_of_cons. tauto.
    + rewrite !elem_of_cons, IH. tauto.
Qed.

Section multi_slug_out.
Context (attr : string → option pyval).

Lemma zip_raise names e : foldl (MultiSlugRelatedField.assign_attr attr) (Raise e) names = Raise e.
Proof. induction names as [|f names IH]; [done|]. simpl. apply IH. Qed.

Lemma zip_fold names : ∀ d0,
  match foldl (MultiSlugRelatedField.assign_attr attr) (Ret d0) names with
  | Ret d =>
      (∀ f, f ∈ names → is_Some (attr f) ∧ od_get String.eqb d f = attr f)
      ∧ (∀ k, k ∉ names → od_get String.eqb d k = od_get String.eqb d0 k)
      ∧ (∀ k, k ∈ d.*1 ↔ k ∈ d0.*1 ∨ k ∈ names)
  | Raise e => e = AttributeError ∧ ∃ f, f ∈ names ∧ attr f = None
  | Invalid _ _ => False
  end.
Proof.
  induction names as [|f names IH]; intros d0; simpl.
  - split; [by intros f ?%elem_of_nil|]. split; [done|].
    intros k. split; [by left|]. by intros [?|?%elem_of_nil].
  - destruct (attr f) as [v|] eqn:Hf.
    + specialize (IH (od_set String.eqb d0 f v)).
      destruct (foldl (MultiSlugRelatedField.assign_attr attr) _ names) as [d| |e].
      * destruct IH as (Hin & Hout & Hkeys). split; [|split].
        -- intros f' Hf'. destruct (decide (f' ∈ names)) as [?|Hnot]; [by apply Hin|].
           apply elem_of_cons in Hf' as [->|?]; [|done].
           rewrite Hf. split; [by eexists|].
           rewrite (Hout f Hnot).
           apply (od_get_set_eq String.eqb id string_eqb_norm).
        -- intros k [Hne Hk]%not_elem_of_cons. rewrite (Hout k Hk).
           apply (od_get_set_ne String.eqb id string_eqb_norm).
           apply String.eqb_neq. congruence.
        -- intros k. rewrite Hkeys, od_set_keys, elem_of_cons. tauto.
      * done.
      * destruct IH as (-> & f' & Hin & Hnone). split; [done|].
        exists f'. split; [by right|done].
    + rewrite zip_raise. split; [done|]. exists f. split; [by left|done].
Qed.

(** X8.  [to_representation] returns exactly when the object has every
    slug attribute; the mapping then holds each slug field's attribute
    under the field's name and nothing under any other name.  When an
    attribute is missing, [AttributeError] is raised. *)
Theorem multi_slug_representation self :
  match MultiSlugRelatedField.to_representation self attr with
  | Ret d =>
      (∀ f, f ∈ MultiSlugRelatedField.slug_fields self →
            is_Some (attr f) ∧ od_get String.eqb d f = attr f)
      ∧ (∀ k, k ∉ MultiSlugRelatedField.slug_fields self →
              od_get String.eqb d k = None)
  | Raise e =>
      e = AttributeError
      ∧ ∃ f, f ∈ MultiSlugRelatedField.slug_fields self ∧ attr f = None
  | Invalid _ _ => False
  end.
Proof.
  pose proof (zip_fold (MultiSlugRelatedField.slug_fields self) []) as H.
  unfold MultiSlugRelatedField.to_representation.
  destruct (foldl (MultiSlugRelatedField.assign_attr attr) _ _) as [d| |e]; [|done..].
  destruct H as (Hin & Hout & _). split; [done|].
  intros k Hk. by rewrite (Hout k Hk).
Qed.

(** X9.  The mapping that [to_representation] produces is accepted
    back: sent to [to_internal_value] it passes the key-set check, the
    lookup source is asked with exactly its items, and the object it
    finds is returned. *)
Theorem multi_slug_round_trip {obj : Type}
    (queryset_get : list (string * pyval) → lookup obj) self d o :
  MultiSlugRelatedField.to_representation self attr = Ret d →
  queryset_get d = Found o →
  MultiSlugRelatedField.to_internal_value queryset_get self (data_of_dict d) = Ret o.
Proof.
  intros Hd Hq.
  pose proof (zip_fold (MultiSlugRelatedField.slug_fields self) []) as H.
  unfold MultiSlugRelatedField.to_representation in Hd.
  rewrite Hd in H. destruct H as (_ & _ & Hkeys).
  unfold data_of_dict. simpl.
  assert (MultiSlugRelatedField.same_keys ((λ kv, (PyStr kv.1, kv.2)) <$> d)
            (MultiSlugRelatedField.slug_fields self) = true) as ->.
  { apply same_keys_spec. split.
    - intros k (kv & -> & (kv' & -> & Hin)%list_elem_of_fmap)%list_elem_of_fmap.
      exists kv'.1. split; [|done].
      assert (kv'.1 ∈ d.*1) as Hk.
      { apply list_elem_of_fmap. by exists kv'. }
      apply Hkeys in Hk as [Hk|Hk]; [by apply elem_of_nil in Hk|done].
    - intros n Hn. assert (n ∈ d.*1) as (kv & -> & Hin)%list_elem_of_fmap.
      { apply Hkeys. by right. }
      apply list_elem_of_fmap. exists (PyStr kv.1, kv.2). split; [done|].
      apply list_elem_of_fmap. by exists kv. }
  simpl. by rewrite kwargs_data_of_dict, Hq.
Qed.
End multi_slug_out.

Lemma multi_slug_round_trip_witness :
  MultiSlugRelatedField.to_internal_value Demo.lookup_codes
    (MultiSlugRelatedField.mk ["code"; "region"])
    (data_of_dict [("code", PyStr "A1"); ("region", PyStr "US")])
  = Ret 1%nat.
Proof.
  apply (multi_slug_round_trip Demo.row_attr Demo.lookup_codes
           (MultiSlugRelatedField.mk ["code"; "region"])
           [("code", PyStr "A1"); ("region", PyStr "US")] 1%nat);
    reflexivity.
Defined.

(** ** ComplexPKRelatedField: what [get_fields] builds and how it fails *)

Section get_fields_more.
Context (field_mapping : string → option string).
Context (requires_arguments : string → bool).




(** The loop over two lists in a row. *)
Lemma add_extras_app self model (names1 names2 : list string) : ∀ fields,
  ComplexPKRelatedField.add_extras field_mapping requires_arguments self model
    fields (names1 ++ names2)%list
  = (fields1 ← ComplexPKRelatedField.add_extras field_mapping requires_arguments
                 self model fields names1;
     ComplexPKRelatedField.add_extras field_mapping requires_arguments
       self model fields1 names2).
Proof.
  induction names1 as [|n names1 IH]; intros fields; simpl; [done|].
  destruct (ComplexPKRelatedField.add_extra field_mapping requires_arguments
              self model fields n); simpl; [apply IH|done..].
Qed.

(** The entry of a listed model field after the loop. *)
Lemma add_extras_entry self m n f names : ∀ fields fields',
  ComplexPKRelatedField.add_extras field_mapping requires_arguments self (Some m)
    fields names = Ret fields' →
  n ≠ ComplexPKRelatedField.pk_field_name self →
  get_field m n = Some f →
  n ∈ names →
  ∃ cls, field_mapping (field_class f) = Some cls
         ∧ od_get String.eqb fields' n
           = Some (mksfield cls None true (Some (verbose_name f)) (Some (help_text f))).
Proof.
  induction names as [|x names IH]; intros fields fields' H Hpk Hf Hin;
    [by apply elem_of_nil in Hin|].
  simpl in H.
  destruct (ComplexPKRelatedField.add_extra field_mapping requires_arguments
              self (Some m) fields x)
    as [fields1| |] eqn:E; try done. simpl in H.
  destruct (decide (n ∈ names)) as [Hn|Hn]; [by apply (IH _ _ H)|].
  apply elem_of_cons in Hin as [<-|?]; [|done].
  unfold ComplexPKRelatedField.add_extra in E.
  apply String.eqb_neq in Hpk. rewrite Hpk, Hf in E.
  destruct (field_mapping (field_class f)) as [cls|]; [|done].
  destruct (requires_arguments cls); [done|].
  injection E as <-. exists cls. split; [done|].
  rewrite (add_extras_other _ _ _ _ _ _ _ _ H); [|by left].
  apply (od_get_set_eq String.eqb id string_eqb_norm).
Qed.

(** X11.  For every extra attribute name, other than [pk_field_name],
    that is a field of the related model, the mapping [get_fields]
    returns has under that name a read-only field of the serializer
    class mapped to the model field's class, with no source of its own,
    labelled with the model field's [verbose_name] and carrying its
    [help_text]; this holds also when the name is the display key. *)
Theorem get_fields_extra_entry self m fields n f :
  ComplexPKRelatedField.related self = Ret (Some m) →
  ComplexPKRelatedField.get_fields field_mapping requires_arguments self = Ret fields →
  n ∈ ComplexPKRelatedField.extra_fields self →
  n ≠ ComplexPKRelatedField.pk_field_name self →
  get_field m n = Some f →
  ∃ cls, field_mapping (field_class f) = Some cls
         ∧ od_get String.eqb fields n
           = Some (mksfield cls None true (Some (verbose_name f)) (Some (help_text f))).
Proof.
  unfold ComplexPKRelatedField.get_fields. intros -> H Hin Hpk Hf.
  simpl in H. by apply (add_extras_entry _ _ _ _ _ _ _ H).
Qed.

(** X12.  [get_fields] fails at the first extra name it cannot build a
    field for.  When every name listed before it is [pk_field_name], is
    unknown to the related model, or names a model field whose
    serializer field class is found and needs no further constructor
    argument, then a name, other than [pk_field_name], of a model field
    whose class has no serializer field class makes [get_fields] raise
    [KeyError], and one whose serializer field class needs further
    constructor arguments makes it raise [TypeError]. *)
Theorem get_fields_first_failure self m (before after : list string) n f :
  ComplexPKRelatedField.related self = Ret (Some m) →
  ComplexPKRelatedField.extra_fields self = (before ++ n :: after)%list →
  (∀ x, x ∈ before → x ≠ ComplexPKRelatedField.pk_field_name self →
        ∀ g, get_field m x = Some g →
             ∃ cls, field_mapping (field_class g) = Some cls
                    ∧ requires_arguments cls = false) →
  n ≠ ComplexPKRelatedField.pk_field_name self →
  get_field m n = Some f →
  (field_mapping (field_class f) = None →
   ComplexPKRelatedField.get_fields field_mapping requires_arguments self
   = Raise KeyError)
  ∧ (∀ cls, field_mapping (field_class f) = Some cls →
            requires_arguments cls = true →
            ComplexPKRelatedField.get_fields field_mapping requires_arguments self
            = Raise TypeError).
Proof.
  intros Hrel Hextra Hbefore Hpk Hf.
  unfold ComplexPKRelatedField.get_fields. rewrite Hrel, Hextra. simpl.
  rewrite add_extras_app.
  destruct (add_extras_returns field_mapping requires_arguments self (Some m) before
              (ComplexPKRelatedField.label_fields self)) as [fields1 ->].
  { intros x Hx Hxpk. exists m. split; [done|]. by apply Hbefore. }
  simpl. unfold ComplexPKRelatedField.add_extra.
  apply String.eqb_neq in Hpk. rewrite Hpk, Hf.
  split.
  - by intros ->.
  - by intros cls -> ->.
Qed.


(** The loop keeps every entry read-only and adds keys among the names
    it runs over only. *)
Lemma add_extras_read_only self model names : ∀ fields fields',
  ComplexPKRelatedField.add_extras field_mapping requires_arguments self model
    fields names = Ret fields' →
  ∀ k sf, od_get String.eqb fields' k = Some sf →
    od_get String.eqb fields k = Some sf
    ∨ (sf_read_only sf = true ∧ sf_source sf = None ∧ k ∈ names
       ∧ k ≠ ComplexPKRelatedField.pk_field_name self).
Proof.
  induction names as [|n names IH]; intros fields fields' H k sf Hk; simpl in H.
  - injection H as <-. by left.
  - destruct (ComplexPKRelatedField.add_extra field_mapping requires_arguments
                self model fields n)
      as [fields1| |] eqn:E; try done. simpl in H.
    destruct (IH _ _ H k sf Hk) as [Hk1|(? & ? & ? & ?)];
      [|right; repeat split; try done; by right].
    unfold ComplexPKRelatedField.add_extra in E.
    destruct (String.eqb n _) eqn:Hpk; [injection E as <-; by left|].
    destruct model as [m|]; [|done].
    destruct (get_field m n) as [f|]; [|injection E as <-; by left].
    destruct (field_mapping (field_class f)) as [cls|]; [|done].
    destruct (requires_arguments cls); [done|].
    injection E as <-.
    destruct (decide (n = k)) as [->|Hne].
    + rewrite (od_get_set_eq String.eqb id string_eqb_norm) in Hk1.
      injection Hk1 as <-. right. simpl.
      repeat split; [by left|by apply String.eqb_neq].
    + rewrite (od_get_set_ne String.eqb id string_eqb_norm) in Hk1;
        [by left|by apply String.eqb_neq].
Qed.

(** The loop keeps the mapping a dict: no key is stored twice. *)
Lemma add_extras_wf self model names : ∀ fields fields',
  ComplexPKRelatedField.add_extras field_mapping requires_arguments self model
    fields names = Ret fields' →
  od_wf String.eqb fields → od_wf String.eqb fields'.
Proof.
  induction names as [|n names IH]; intros fields fields' H Hwf; simpl in H.
  - by injection H as <-.
  - destruct (ComplexPKRelatedField.add_extra field_mapping requires_arguments
                self model fields n)
      as [fields1| |] eqn:E; try done. simpl in H.
    apply (IH _ _ H).
    unfold ComplexPKRelatedField.add_extra in E.
    destruct (String.eqb n _); [by injection E as <-|].
    destruct model as [m|]; [|done].
    destruct (get_field m n) as [f|]; [|by injection E as <-].
    destruct (field_mapping (field_class f)) as [cls|]; [|done].
    destruct (requires_arguments cls); [done|].
    injection E as <-. by apply (od_set_wf String.eqb id string_eqb_norm).
Qed.

Lemma get_fields_wf self fields :
  ComplexPKRelatedField.get_fields field_mapping requires_arguments self = Ret fields →
  od_wf String.eqb fields.
Proof.
  unfold ComplexPKRelatedField.get_fields.
  destruct (ComplexPKRelatedField.related self) as [model| |]; try done. simpl.
  intros H. apply (add_extras_wf _ _ _ _ _ H).
  unfold ComplexPKRelatedField.label_fields.
  destruct (ComplexPKRelatedField.display_field self) as [d|]; [|done].
  by destruct (truthy (Some d) && _).
Qed.

(** X14.  Every field in the mapping [get_fields] returns is read-only,
    and sits either under the display key, as the [CharField] whose
    source is the display attribute, or under an extra attribute name
    other than [pk_field_name]: [pk_field_name] gets no field from the
    model, and no other key appears. *)
Theorem get_fields_read_only self fields k sf :
  ComplexPKRelatedField.get_fields field_mapping requires_arguments self = Ret fields →
  od_get String.eqb fields k = Some sf →
  sf_read_only sf = true
  ∧ ((k = ComplexPKRelatedField.display_field_name self
      ∧ ∃ d, ComplexPKRelatedField.display_field self = Some d
             ∧ sf = ComplexPKRelatedField.display_char_field d)
     ∨ (k ∈ ComplexPKRelatedField.extra_fields self
        ∧ k ≠ ComplexPKRelatedField.pk_field_name self
        ∧ sf_source sf = None)).
Proof.
  unfold ComplexPKRelatedField.get_fields.
  destruct (ComplexPKRelatedField.related self) as [model| |]; try done. simpl.
  intros H Hk.
  destruct (add_extras_read_only _ _ _ _ _ H k sf Hk) as [Hl|(? & ? & ? & ?)];
    [|split; [done|by right]].
  unfold ComplexPKRelatedField.label_fields in Hl.
  destruct (ComplexPKRelatedField.display_field self) as [d|]; [|done].
  destruct (truthy (Some d) && _); [|done]. simpl in Hl.
  destruct (String.eqb _ k) eqn:E; [|done].
  apply String.eqb_eq in E as <-. injection Hl as <-.
  split; [done|]. left. split; [done|]. by exists d.
Qed.
End get_fields_more.

Lemma get_fields_extra_entry_witness :
  ∃ cls, Demo.field_mapping "CharField" = Some cls
         ∧ od_get String.eqb
             [("label", ComplexPKRelatedField.display_char_field "title");
              ("name", mksfield "CharField" None true (Some "Full name")
                         (Some "Name of the person"))]
             "name"
           = Some (mksfield cls None true (Some "Full name") (Some "Name of the person")).
Proof.
  apply (get_fields_extra_entry Demo.field_mapping Demo.requires_arguments
           (ComplexPKRelatedField.init "id" (Some "title") "label" ["id"; "name"]
              (Some Demo.person))
           Demo.person _ "name"
           (mkfield "CharField" "Full name" "Name of the person" None)).
  - reflexivity.
  - reflexivity.
  - simpl. right. by left.
  - discriminate.
  - reflexivity.
Defined.

Lemma get_fields_first_failure_witness :
  ComplexPKRelatedField.get_fields Demo.field_mapping Demo.requires_arguments
    (ComplexPKRelatedField.init "id" None "label" ["id"; "nickname"; "comments"; "price"]
       (Some Demo.ticket))
  = Raise KeyError
  ∧ ComplexPKRelatedField.get_fields Demo.field_mapping Demo.requires_arguments
      (ComplexPKRelatedField.init "id" None "label" ["id"; "price"; "comments"]
         (Some Demo.ticket))
    = Raise TypeError.
Proof.
  split.
  - apply (proj1 (get_fields_first_failure Demo.field_mapping Demo.requires_arguments
                    (ComplexPKRelatedField.init "id" None "label"
                       ["id"; "nickname"; "comments"; "price"] (Some Demo.ticket))
                    Demo.ticket ["id"; "nickname"] ["price"] "comments"
                    (mkfield "ManyToOneRel" "comments" "comments" None)
                    eq_refl eq_refl
                    ltac:(intros x Hx Hpk g Hg;
                          apply elem_of_cons in Hx as [->|Hx]; [done|];
                          apply list_elem_of_singleton in Hx as ->;
                          discriminate Hg)
                    ltac:(discriminate) eq_refl)).
    reflexivity.
  - apply (proj2 (get_fields_first_failure Demo.field_mapping Demo.requires_arguments
                    (ComplexPKRelatedField.init "id" None "label"
                       ["id"; "price"; "comments"] (Some Demo.ticket))
                    Demo.ticket ["id"] ["comments"] "price"
                    (mkfield "DecimalField" "Price" "What it costs" None)
                    eq_refl eq_refl
                    ltac:(intros x Hx Hpk g Hg;
                          apply list_elem_of_singleton in Hx as ->; done)
                    ltac:(discriminate) eq_refl)
             "DecimalField"); reflexivity.
Defined.

Lemma get_fields_read_only_witness :
  sf_read_only (ComplexPKRelatedField.display_char_field "title") = true
  ∧ (("label" = "label"
      ∧ ∃ d, Some "title" = Some d
             ∧ ComplexPKRelatedField.display_char_field "title"
               = ComplexPKRelatedField.display_char_field d)
     ∨ ("label" ∈ ["id"; "name"] ∧ "label" ≠ "id"
        ∧ sf_source (ComplexPKRelatedField.display_char_field "title") = None)).
Proof.
  apply (get_fields_read_only Demo.field_mapping Demo.requires_arguments
           (ComplexPKRelatedField.init "id" (Some "title") "label" ["id"; "name"]
              (Some Demo.person))
           [("label", ComplexPKRelatedField.display_char_field "title");
            ("name", mksfield "CharField" None true (Some "Full name")
                       (Some "Name of the person"))]
           "label").
  - reflexivity.
  - reflexivity.
Defined.

(** ** ComplexPKRelatedField: the first access of [fields] *)

Section fields_more.
Context (field_mapping : string → option string).
Context (requires_arguments : string → bool).
Context (bind_field : string → serializer_field → outcome serializer_field).

(** The loop that fills the [BindingDict]: when it returns, each key of
    the items holds what binding returned for the item, and every
    other key is as before. *)
Lemma bind_all_entries items : ∀ acc d,
  od_wf String.eqb items →
  ComplexPKRelatedField.bind_all bind_field acc items = Ret d →
  (∀ k sf, od_get String.eqb items k = Some sf →
           ∃ bound, bind_field k sf = Ret bound
                    ∧ od_get String.eqb d k = Some bound)
  ∧ (∀ k, od_get String.eqb items k = None →
          od_get String.eqb d k = od_get String.eqb acc k).
Proof.
  induction items as [|[k0 sf0] items IH]; intros acc d Hwf H.
  - simpl in H. injection H as <-. by split.
  - destruct Hwf as [Hfresh Hwf]. simpl in H.
    destruct (bind_field k0 sf0) as [b0| |] eqn:Hb; try done. simpl in H.
    destruct (IH _ _ Hwf H) as [Hin Hout]. split.
    + intros k sf. simpl. destruct (String.eqb k0 k) eqn:E.
      * apply String.eqb_eq in E as <-. intros [= <-].
        exists b0. split; [done|]. rewrite (Hout k0 Hfresh).
        apply (od_get_set_eq String.eqb id string_eqb_norm).
      * apply Hin.
    + intros k. simpl. destruct (String.eqb k0 k) eqn:E; [done|].
      intros Hk. rewrite (Hout k Hk).
      by apply (od_get_set_ne String.eqb id string_eqb_norm).
Qed.

(** X15.  On an instance with an empty cache, an access of [fields]
    that returns has entered [get_fields] once and returns a mapping
    object that did not exist before.  That object holds, under every
    key of the mapping of [get_fields], the field that binding returned
    for the field found there, and nothing under any other key.  Every
    object that existed before is untouched, and nothing of the
    instance changes but the cache. *)
Theorem fields_first_access self st val self' st' :
  ComplexPKRelatedField.fields_cache self = None →
  ComplexPKRelatedField.fields field_mapping requires_arguments bind_field self st
  = (Ret val, self', st') →
  val = length (ComplexPKRelatedField.heap st)
  ∧ (∃ items d,
       ComplexPKRelatedField.get_fields field_mapping requires_arguments self
       = Ret items
       ∧ ComplexPKRelatedField.heap st' !! val = Some d
       ∧ (∀ k sf, od_get String.eqb items k = Some sf →
                  ∃ bound, bind_field k sf = Ret bound
                           ∧ od_get String.eqb d k = Some bound)
       ∧ (∀ k, od_get String.eqb items k = None → od_get String.eqb d k = None))
  ∧ (∀ i, (i < length (ComplexPKRelatedField.heap st))%nat →
          ComplexPKRelatedField.heap st' !! i = ComplexPKRelatedField.heap st !! i)
  ∧ ComplexPKRelatedField.get_fields_calls st'
    = S (ComplexPKRelatedField.get_fields_calls st)
  ∧ self' = ComplexPKRelatedField.set_fields_cache self (Some val).
Proof.
  intros Hc. unfold ComplexPKRelatedField.fields, ComplexPKRelatedField.fields_body.
  rewrite Hc.
  destruct (ComplexPKRelatedField.get_fields field_mapping requires_arguments self)
    as [items| |] eqn:Hg; simpl; try by intros [=].
  destruct (ComplexPKRelatedField.bind_all bind_field [] items) as [d| |] eqn:Hb;
    simpl; try by intros [=].
  intros [= <- <- <-]. simpl. split; [done|]. split; [|split; [|done]].
  - exists items, d. split; [done|].
    split; [apply list_lookup_insert_eq; rewrite length_app; simpl; lia|].
    apply (bind_all_entries _ _ _ (get_fields_wf _ _ _ _ Hg) Hb).
  - intros i Hi. rewrite list_lookup_insert_ne by lia.
    by apply lookup_app_l.
Qed.
End fields_more.

Lemma fields_first_access_witness :
  let self := ComplexPKRelatedField.init "id" None "label" ["name"] (Some Demo.person) in
  let st := ComplexPKRelatedField.mkstore [[]; []] 0 in
  let name_field := mksfield "CharField" None true (Some "Full name")
                      (Some "Name of the person") in
  let st' := ComplexPKRelatedField.mkstore [[]; []; [("name", name_field)]] 1 in
  2%nat = length (ComplexPKRelatedField.heap st)
  ∧ (∃ items d,
       ComplexPKRelatedField.get_fields Demo.field_mapping Demo.requires_arguments self
       = Ret items
       ∧ ComplexPKRelatedField.heap st' !! 2%nat = Some d
       ∧ (∀ k sf, od_get String.eqb items k = Some sf →
                  ∃ bound, Demo.bind_field k sf = Ret bound
                           ∧ od_get String.eqb d k = Some bound)
       ∧ (∀ k, od_get String.eqb items k = None → od_get String.eqb d k = None))
  ∧ (∀ i, (i < length (ComplexPKRelatedField.heap st))%nat →
          ComplexPKRelatedField.heap st' !! i = ComplexPKRelatedField.heap st !! i)
  ∧ ComplexPKRelatedField.get_fields_calls st'
    = S (ComplexPKRelatedField.get_fields_calls st)
  ∧ ComplexPKRelatedField.set_fields_cache self (Some 2%nat)
    = ComplexPKRelatedField.set_fields_cache self (Some 2%nat).
Proof.
  intros self st name_field st'.
  apply (fields_first_access Demo.field_mapping Demo.requires_arguments
           Demo.bind_field self st);
    reflexivity.
Defined.

(** ** ComplexPKRelatedField: more on the conversions *)

(** Looking a string key up in the mapping sent back is looking it up
    in the map. *)
Lemma dict_get_pairs (l : list (string * pyval)) (k : string) :
  dict_get ((λ kv, (PyStr kv.1, kv.2)) <$> l) (PyStr k)
  = (list_to_map l : gmap string pyval) !! k.
Proof.
  induction l as [|[k0 v0] l IH]; [done|].
  rewrite fmap_cons. unfold dict_get in *. cbn [od_get fst snd list_to_map foldr].
  unfold py_eqb at 1. simpl. case_bool_decide as E.
  - injection E as ->. by rewrite lookup_insert_eq.
  - rewrite lookup_insert_ne by congruence. apply IH.
Qed.

Lemma dict_get_data_of_map (m : gmap string pyval) (k : string) :
  dict_get ((λ kv, (PyStr kv.1, kv.2)) <$> map_to_list m) (PyStr k) = m !! k.
Proof. by rewrite dict_get_pairs, list_to_map_to_list. Qed.

Section conversions_more.
Context {obj : Type}.
Context (super_to_internal_value : pydata → outcome obj).
Context (super_to_representation : pyobj → outcome pyval).
Context (get_attribute : option pyobj → list string → outcome pyobj).

(** The loop over the extra names fails with [AttributeError] only. *)
Lemma add_attrs_raise o names : ∀ data e,
  ComplexPKRelatedField.add_attrs o data names = Raise e →
  e = AttributeError ∧ ∃ n, n ∈ names ∧ obj_attrs o !! n = None.
Proof.
  induction names as [|n names IH]; intros data e; simpl; [done|].
  unfold getattr. destruct (obj_attrs o !! n) as [v|] eqn:Hn; simpl.
  - intros (-> & n' & Hin & H)%IH. split; [done|]. exists n'. split; [by right|done].
  - intros [= <-]. split; [done|]. exists n. split; [by left|done].
Qed.

Lemma add_attrs_not_invalid o names : ∀ data c msg,
  ComplexPKRelatedField.add_attrs o data names ≠ Invalid c msg.
Proof.
  induction names as [|n names IH]; intros data c msg; simpl; [done|].
  unfold getattr. destruct (obj_attrs o !! n); simpl; [apply IH|done].
Qed.

(** What the loop leaves when it returns. *)
Lemma add_attrs_ret o names : ∀ data data',
  ComplexPKRelatedField.add_attrs o data names = Ret data' →
  (∀ n, n ∈ names → is_Some (obj_attrs o !! n))
  ∧ (∀ k, k ∉ names → data' !! k = data !! k)
  ∧ dom data' = dom data ∪ list_to_set names.
Proof.
  induction names as [|n names IH]; intros data data'; simpl.
  - intros [= <-]. split; [by intros n ?%elem_of_nil|]. split; [done|].
    set_solver.
  - unfold getattr. destruct (obj_attrs o !! n) as [v|] eqn:Hn; simpl; [|done].
    intros (Hall & Hout & Hdom)%IH. split; [|split].
    + intros n' [->|?]%elem_of_cons; [by eexists|by apply Hall].
    + intros k [Hne Hk]%not_elem_of_cons.
      by rewrite (Hout k Hk), lookup_insert_ne.
    + rewrite Hdom, dom_insert_L. set_solver.
Qed.

Lemma add_display_ret self o data data' :
  ComplexPKRelatedField.add_display self o data = Ret data' →
  (∀ k, k ≠ ComplexPKRelatedField.display_field_name self → data' !! k = data !! k)
  ∧ dom data'
    = dom data
      ∪ (if bool_decide (ComplexPKRelatedField.display_field_name self
                           ∈ ComplexPKRelatedField.extra_fields self)
         then ∅ else {[ComplexPKRelatedField.display_field_name self]}).
Proof.
  unfold ComplexPKRelatedField.add_display.
  case_bool_decide as Hin.
  { intros [= <-]. split; [done|]. set_solver. }
  assert (∀ v, (∀ k, k ≠ ComplexPKRelatedField.display_field_name self →
                     <[ComplexPKRelatedField.display_field_name self := v]> data !! k
                     = data !! k)
               ∧ dom (<[ComplexPKRelatedField.display_field_name self := v]> data)
                 = dom data ∪ {[ComplexPKRelatedField.display_field_name self]}) as Hins.
  { intros v. split.
    - intros k Hk. by rewrite lookup_insert_ne.
    - rewrite dom_insert_L. set_solver. }
  destruct (ComplexPKRelatedField.display_field self) as [d|].
  - destruct (truthy (Some d)).
    + unfold getattr. destruct (obj_attrs o !! d) as [v|]; simpl; [|done].
      intros [= <-]. apply Hins.
    + intros [= <-]. apply Hins.
  - intros [= <-]. apply Hins.
Qed.

Lemma add_display_raise self o data e :
  ComplexPKRelatedField.add_display self o data = Raise e → e = AttributeError.
Proof.
  unfold ComplexPKRelatedField.add_display.
  case_bool_decide; [done|].
  destruct (ComplexPKRelatedField.display_field self) as [d|]; [|done].
  destruct (truthy (Some d)); [|done].
  unfold getattr. destruct (obj_attrs o !! d); simpl; [done|]. by intros [= <-].
Qed.

(** X16.  Unlike [get_fields], [to_representation] does not skip a name
    the object does not have: once the object and the primary key are
    resolved, an extra attribute name that is not an attribute of the
    object makes [to_representation] raise [AttributeError]. *)
Theorem to_representation_strict self value o pk n :
  ComplexPKRelatedField.attr_obj get_attribute self value = Ret o →
  super_to_representation value = Ret pk →
  n ∈ ComplexPKRelatedField.extra_fields self →
  obj_attrs o !! n = None →
  ComplexPKRelatedField.to_representation
    super_to_representation get_attribute self value
  = Raise AttributeError.
Proof.
  intros Hobj Hpk Hin Hn. unfold ComplexPKRelatedField.to_representation.
  rewrite Hobj. simpl. rewrite Hpk. simpl.
  destruct (ComplexPKRelatedField.add_display self o _) as [data1|c msg|e] eqn:Hd;
    simpl.
  - destruct (ComplexPKRelatedField.add_attrs o data1 _) as [data|c msg|e] eqn:Ha.
    + apply add_attrs_ret in Ha as (Hall & _). destruct (Hall n Hin) as [v Hv].
      congruence.
    + by destruct (add_attrs_not_invalid _ _ _ _ _ Ha).
    + by apply add_attrs_raise in Ha as [-> _].
  - unfold ComplexPKRelatedField.add_display in Hd.
    case_bool_decide; [done|].
    destruct (ComplexPKRelatedField.display_field self) as [d|]; [|done].
    destruct (truthy (Some d)); [|done].
    unfold getattr in Hd. by destruct (obj_attrs o !! d).
  - by rewrite (add_display_raise _ _ _ _ Hd).
Qed.

(** X17.  The keys of the mapping [to_representation] returns are
    exactly [pk_field_name], the extra attribute names and, unless it
    is one of the extra names, the display key. *)
Theorem to_representation_keys self value data :
  ComplexPKRelatedField.to_representation
    super_to_representation get_attribute self value = Ret data →
  dom data
  = {[ComplexPKRelatedField.pk_field_name self]}
    ∪ (if bool_decide (ComplexPKRelatedField.display_field_name self
                         ∈ ComplexPKRelatedField.extra_fields self)
       then ∅ else {[ComplexPKRelatedField.display_field_name self]})
    ∪ list_to_set (ComplexPKRelatedField.extra_fields self).
Proof.
  unfold ComplexPKRelatedField.to_representation.
  destruct (ComplexPKRelatedField.attr_obj _ _ _) as [o| |]; try done. simpl.
  destruct (super_to_representation value) as [pk| |]; try done. simpl.
  destruct (ComplexPKRelatedField.add_display self o _) as [data1| |] eqn:Hd;
    try done. simpl.
  intros (_ & _ & ->)%add_attrs_ret.
  apply add_display_ret in Hd as [_ ->]. by rewrite dom_singleton_L.
Qed.

(** X18.  Sending the mapping of [to_representation] back: when
    [pk_field_name] is neither an extra attribute name nor the display
    key, [to_internal_value] on that mapping hands the base class the
    very primary key the base class produced. *)
Theorem complex_pk_round_trip self value data pk :
  ComplexPKRelatedField.to_representation
    super_to_representation get_attribute self value = Ret data →
  super_to_representation value = Ret pk →
  ComplexPKRelatedField.pk_field_name self
    ∉ ComplexPKRelatedField.extra_fields self →
  ComplexPKRelatedField.pk_field_name self
    ≠ ComplexPKRelatedField.display_field_name self →
  ComplexPKRelatedField.to_internal_value super_to_internal_value self
    (data_of_map data)
  = super_to_internal_value (DVal pk).
Proof.
  unfold ComplexPKRelatedField.to_representation.
  destruct (ComplexPKRelatedField.attr_obj _ _ _) as [o| |]; try done. simpl.
  intros H Hpk Hnot Hne. rewrite Hpk in H. simpl in H.
  destruct (ComplexPKRelatedField.add_display self o _) as [data1| |] eqn:Hd;
    try done. simpl in H.
  apply add_attrs_ret in H as (_ & Hout & _).
  apply add_display_ret in Hd as [Hkeep _].
  assert (data !! ComplexPKRelatedField.pk_field_name self = Some pk) as Hget.
  { rewrite (Hout _ Hnot), (Hkeep _ Hne). apply lookup_singleton_eq. }
  unfold ComplexPKRelatedField.to_internal_value, ComplexPKRelatedField.subscript,
    data_of_map, data_of_dict.
  by rewrite dict_get_data_of_map, Hget.
Qed.

(** X19.  After the method [get_attribute] has stored an instance on
    the field, and while the framework resolves the source attributes
    on that instance, [to_representation] takes nothing from its
    argument but the primary key: two values with the same primary key
    give the same result. *)
Theorem cached_instance_is_read {A} (super_get_attribute : pyobj → outcome A)
    self instance o value1 value2 :
  let self' := (ComplexPKRelatedField.cache_instance super_get_attribute self instance).2 in
  get_attribute (Some instance) (ComplexPKRelatedField.source_attrs self) = Ret o →
  super_to_representation value1 = super_to_representation value2 →
  ComplexPKRelatedField.instance self' = Some instance
  ∧ ComplexPKRelatedField.to_representation
      super_to_representation get_attribute self' value1
    = ComplexPKRelatedField.to_representation
        super_to_representation get_attribute self' value2.
Proof.
  intros self' Hres Hpk. split; [done|].
  unfold ComplexPKRelatedField.to_representation, ComplexPKRelatedField.attr_obj.
  subst self'. simpl. by rewrite Hres, Hpk.
Qed.
End conversions_more.

Lemma to_representation_strict_witness :
  ComplexPKRelatedField.to_representation Demo.value_pk Demo.get_attribute_unset
    (Demo.bound (ComplexPKRelatedField.init "id" None "label" ["name"; "status"] None)
       "owner")
    Demo.bob
  = Raise AttributeError.
Proof.
  apply (to_representation_strict Demo.value_pk Demo.get_attribute_unset
           _ Demo.bob Demo.bob (PyInt 7) "status").
  - reflexivity.
  - reflexivity.
  - simpl. right. by left.
  - vm_compute. reflexivity.
Defined.

Lemma to_representation_keys_witness :
  let self := Demo.bound (ComplexPKRelatedField.init "id" None "label" ["name"] None)
                "owner" in
  let data : gmap string pyval :=
    <["name" := PyStr "Bob"]> (<["label" := PyStr "Bob"]> {["id" := PyInt 7]}) in
  dom data
  = ({[ComplexPKRelatedField.pk_field_name self]} : gset string)
    ∪ (if bool_decide (ComplexPKRelatedField.display_field_name self
                         ∈ ComplexPKRelatedField.extra_fields self)
       then ∅ else {[ComplexPKRelatedField.display_field_name self]})
    ∪ list_to_set (ComplexPKRelatedField.extra_fields self).
Proof.
  intros self data.
  apply (to_representation_keys Demo.value_pk Demo.get_attribute_unset self Demo.bob data).
  reflexivity.
Defined.

Lemma complex_pk_round_trip_witness :
  let self := Demo.bound (ComplexPKRelatedField.init "id" None "label" ["name"] None)
                "owner" in
  let data : gmap string pyval :=
    <["name" := PyStr "Bob"]> (<["label" := PyStr "Bob"]> {["id" := PyInt 7]}) in
  ComplexPKRelatedField.to_internal_value (λ d, Ret d) self (data_of_map data)
  = Ret (DVal (PyInt 7)).
Proof.
  intros self data.
  apply (complex_pk_round_trip (λ d, Ret d) Demo.value_pk Demo.get_attribute_unset
           self Demo.bob data (PyInt 7)).
  - reflexivity.
  - reflexivity.
  - simpl. intros H%list_elem_of_singleton. discriminate H.
  - simpl. discriminate.
Defined.

Lemma cached_instance_is_read_witness :
  let self := Demo.bound (ComplexPKRelatedField.init "id" None "label" ["name"] None)
                "owner" in
  let self' := (ComplexPKRelatedField.cache_instance Demo.value_pk self Demo.ticket1).2 in
  ComplexPKRelatedField.instance self' = Some Demo.ticket1
  ∧ ComplexPKRelatedField.to_representation Demo.value_pk Demo.get_attribute_owner
      self' Demo.pk_only
    = ComplexPKRelatedField.to_representation Demo.value_pk Demo.get_attribute_owner
        self' Demo.bob.
Proof.
  intros self self'.
  apply (cached_instance_is_read Demo.value_pk Demo.get_attribute_owner
           Demo.value_pk self Demo.ticket1 Demo.bob Demo.pk_only Demo.bob).
  - reflexivity.
  - vm_compute. reflexivity.
Defined.

(** With the instance cached, the primary-key-only value is serialized
    with the attributes of the related object. *)
Example cached_instance_example :
  let self := Demo.bound (ComplexPKRelatedField.init "id" None "label" ["name"] None)
                "owner" in
  let self' := (ComplexPKRelatedField.cache_instance Demo.value_pk self Demo.ticket1).2 in
  ComplexPKRelatedField.to_representation Demo.value_pk Demo.get_attribute_owner
    self' Demo.pk_only
  = Ret (<["name" := PyStr "Bob"]> (<["label" := PyStr "Bob"]> {["id" := PyInt 7]}))
  ∧ ComplexPKRelatedField.to_representation Demo.value_pk Demo.get_attribute_unset
      self Demo.pk_only
    = Raise AttributeError.
Proof. split; vm_compute; reflexivity. Qed.

(** X20.  [to_internal_value] fails with [invalid] on a value that is
    not a mapping, on a mapping whose key set is not the set of slug
    fields, and when the lookup source raises [TypeError] or
    [ValueError]. *)
Theorem multi_slug_invalid {obj : Type}
    (queryset_get : list (string * pyval) → lookup obj) self data :
  ((∀ items, data ≠ DDict items)
   ∨ (∃ items, data = DDict items
               ∧ MultiSlugRelatedField.same_keys items
                   (MultiSlugRelatedField.slug_fields self) = false)
   ∨ (∃ items kw e, data = DDict items
                    ∧ MultiSlugRelatedField.kwargs items = Some kw
                    ∧ queryset_get kw = LookupRaises e
                    ∧ (e = TypeError ∨ e = ValueError))) →
  MultiSlugRelatedField.to_internal_value queryset_get self data
  = Invalid "invalid" "Invalid value.".
Proof.
  intros [H|[(items & -> & H)|(items & kw & e & -> & Hkw & Hq & He)]].
  - by apply multi_slug_not_mapping.
  - by apply multi_slug_key_mismatch.
  - by apply (multi_slug_lookup_error _ _ _ kw e).
Qed.

Lemma multi_slug_invalid_witness :
  MultiSlugRelatedField.to_internal_value Demo.lookup_codes
    (MultiSlugRelatedField.mk ["code"; "region"])
    (DDict [(PyStr "code", PyStr "A1")])
  = Invalid "invalid" "Invalid value.".
Proof.
  apply (multi_slug_invalid Demo.lookup_codes
           (MultiSlugRelatedField.mk ["code"; "region"])
           (DDict [(PyStr "code", PyStr "A1")])).
  right. left. exists [(PyStr "code", PyStr "A1")]. split; reflexivity.
Defined.

Lemma fields_n_fresh_witness :
  let self := ComplexPKRelatedField.init "id" None "label" ["owner"] (Some Demo.ticket) in
  let st := ComplexPKRelatedField.mkstore [] 0 in
  (∃ val self' st',
      ComplexPKRelatedField.fields_n Demo.field_mapping Demo.requires_arguments Demo.bind_field 3 self st
      = (replicate 3 (Ret val), self', st')
      ∧ ComplexPKRelatedField.get_fields_calls st'
        = S (ComplexPKRelatedField.get_fields_calls st))
  ∨ ((ComplexPKRelatedField.fields_n Demo.field_mapping Demo.requires_arguments Demo.bind_field 2 self st).1.2
     = self
     ∧ ∀ val, Ret val ∉ (ComplexPKRelatedField.fields_n Demo.field_mapping Demo.requires_arguments
                            Demo.bind_field 2 self st).1.1).
Proof.
  intros self st.
  apply (fields_n_fresh Demo.field_mapping Demo.requires_arguments Demo.bind_field self 2 st).
  reflexivity.
Defined.
